(** * A shallow embedding of the [o] data-access layer

    The development follows the Go sources: [gorm_builder.go] (the [Where]
    condition DSL, its translation by [applyGormWhere], and the query
    facade) and the connection file (the [GormDBs] registry,
    [InitDBWithMap], [CloseAllDBs], [BeginTx], [CommitTx], [buildDSN]),
    and [GetSvrMark] of [utils.go].

    GORM and [database/sql] are external: a query builder is modelled by the
    list of predicates handed to it, and everything the engine answers is
    taken from an [Engine] record. *)

From Stdlib Require Import ZArith.
From stdpp Require Import base option list strings gmap pretty.

Open Scope string_scope.
Open Scope list_scope.

(** ** Go values and run-time panics *)

(** The dynamic values an [any] can hold, as far as the sources inspect them. *)
#[warnings="-register-all"]
Inductive value : Type :=
  | VNil
  | VBool (b : bool)
  | VInt (z : Z)
  | VStr (s : string)
  | VTime (t : Z)
  | VAnySlice (elems : list value)          (* []interface{} *)
  | VIntSlice (elems : list Z)              (* []int: a slice, not []interface{} *)
  | VStrSlice (elems : list string)         (* []string *)
  | VStruct (fields : list (string * value))  (* fields in declaration order *)
  | VPtr (target : value).                  (* non-nil pointer *)

Inductive panic : Type :=
  | IndexOutOfRange
  | TypeAssertion
  | NilDereference.

Inductive result (A : Type) : Type :=
  | Ok (a : A)
  | Panic (p : panic).
Arguments Ok {A} a.
Arguments Panic {A} p.

#[global] Instance result_ret : MRet result := fun _ a => Ok a.
#[global] Instance result_bind : MBind result := fun _ _ f m =>
  match m with
  | Ok a => f a
  | Panic p => Panic p
  end.

(** [arg[i]] *)
Definition index (arg : list value) (i : nat) : result value :=
  match arg !! i with
  | Some v => Ok v
  | None => Panic IndexOutOfRange
  end.

(** [v.(string)], the panicking form *)
Definition assert_string (v : value) : result string :=
  match v with
  | VStr s => Ok s
  | _ => Panic TypeAssertion
  end.

(** [s, ok := v.(string)] *)
Definition as_string (v : value) : option string :=
  match v with
  | VStr s => Some s
  | _ => None
  end.

(** [s, ok := v.([]interface{})] *)
Definition as_any_slice (v : value) : option (list value) :=
  match v with
  | VAnySlice elems => Some elems
  | _ => None
  end.

Definition is_string (v : value) : bool :=
  match v with
  | VStr _ => true
  | _ => false
  end.

(** Monadic left fold: a [for ... range] loop whose body may panic. *)
Fixpoint foldM {A B : Type} (f : A -> B -> result A) (a : A) (l : list B)
  : result A :=
  match l with
  | [] => Ok a
  | b :: l' => a' ← f a b; foldM f a' l'
  end.

(** ** The query builder *)

(** One call of [Where(sql, vars...)]. *)
Record clause : Type := Clause { sql : string; vars : list value }.

(** A [*gorm.DB]: the connection it belongs to, the table selected by
    [Table], and the predicates added by [Where], oldest first. *)
Record DB : Type := mkDB {
  db_conn : nat;
  db_table : string;
  db_where : list clause
}.

Definition Where (query : DB) (text : string) (args : list value) : DB :=
  {| db_conn := db_conn query;
     db_table := db_table query;
     db_where := db_where query ++ [Clause text args] |}.

(** [W(str, arg, w...)] *)
Definition W (str : string) (arg : value) (w : list value)
  : list (list value) :=
  [ ([VStr str] ++ [arg]) ++ w ].

(** Lower-casing of ASCII letters; [strings.ToLower] agrees with it on
    ASCII input. *)
Definition lower_ascii (c : Ascii.ascii) : Ascii.ascii :=
  let n := Ascii.N_of_ascii c in
  if (65 <=? n)%N && (n <=? 90)%N then Ascii.ascii_of_N (n + 32) else c.

Fixpoint ToLower_ascii (s : string) : string :=
  match s with
  | EmptyString => EmptyString
  | String c s' => String (lower_ascii c) (ToLower_ascii s')
  end.

(** A [case "a", "b", ...:] label list. *)
Definition case_of (s : string) (labels : list string) : bool :=
  bool_decide (s ∈ labels).

Section Translator.

(** [strings.ToLower] of the Go library. *)
Variable ToLower : string -> string.

(** The body of the inner loop of [applyGormWhere]: one condition tuple. *)
Definition applyCondition (query : DB) (arg : list value) : result DB :=
  match length arg with
  | 2 =>
      a0 ← index arg 0;
      field ← assert_string a0;
      a1 ← index arg 1;
      Ok (Where query (field +:+ " = ?") [a1])
  | 3 =>
      a0 ← index arg 0;
      field ← assert_string a0;
      a1 ← index arg 1;
      match as_string a1 with
      | None => Ok query                       (* continue *)
      | Some operator =>
          value ← index arg 2;
          let operator := ToLower operator in
          if case_of operator ["="; ">"; "<"; ">="; "<="; "!="; "<>"] then
            Ok (Where query (field +:+ " " +:+ operator +:+ " ?") [value])
          else if case_of operator ["like"; "not like"] then
            Ok (Where query (field +:+ " " +:+ operator +:+ " ?") [value])
          else if case_of operator ["in"; "not in"] then
            Ok (Where query (field +:+ " " +:+ operator +:+ " (?)") [value])
          else if case_of operator ["between"; "not between"] then
            match as_any_slice value with
            | Some slice =>
                if decide (length slice = 2) then
                  s0 ← index slice 0;
                  s1 ← index slice 1;
                  Ok (Where query
                        (field +:+ " " +:+ operator +:+ " ? AND ?") [s0; s1])
                else Ok query
            | None => Ok query
            end
          else Ok query
      end
  | _ =>
      a0 ← index arg 0;
      sqlStr ← assert_string a0;
      let params := drop 1 arg in
      Ok (Where query sqlStr params)
  end.

(** [applyGormWhere(query, args...)] *)
Definition applyGormWhere (query : DB) (args : list (list (list value)))
  : result DB :=
  foldM (fun query w => foldM applyCondition query w) query args.

End Translator.

(** ** Errors, the engine and the process state *)

(** An [error] value is identified with its message; [nil] is [None]. *)
Abbreviation error := string (only parsing).

(** The error values the sources create with [fmt.Errorf]. *)
Definition NilTransactionError : error := "transaction is nil".
Definition NoConditionError (operation : string) : error :=
  operation +:+ ": invalid condition".
Definition ConfigError (name : string) : error :=
  "invalid configuration for database " +:+ name +:+
  ": missing required fields".
Definition ConnectError (name : string) (err : error) : error :=
  "failed to connect to " +:+ name +:+ " database: " +:+ err.

(** Every request made to GORM or [database/sql]. *)
Inductive call : Type :=
  | CallOpen (dsn : string)                 (* gorm.Open(mysql.Open(dsn), ...) *)
  | CallDB (conn : nat)                     (* db.DB() *)
  | CallSetMaxIdleConns (conn : nat) (n : Z)
  | CallSetMaxOpenConns (conn : nat) (n : Z)
  | CallSetConnMaxLifetime (conn : nat) (d : Z)
  | CallSetConnMaxIdleTime (conn : nat) (d : Z)
  | CallClose (conn : nat)                  (* sqlDB.Close() *)
  | CallRollback (tx : DB)
  | CallCommit (tx : DB)
  | CallCreate (query : DB) (data : value)
  | CallCreateInBatches (query : DB) (data : list value) (batchSize : Z)
  | CallUpdates (query : DB) (data : value)
  | CallDelete (query : DB).

(** What the engine answers: the error of each request ([None] for
    success), and the connection a successful [gorm.Open] hands back. *)
Record Engine : Type := mkEngine {
  respond : call -> option error;
  open_conn : string -> nat
}.

(** The package-level state, [GormDBs], together with the requests made to
    the engine so far. A registered [*gorm.DB] may be [nil]. *)
Record World : Type := mkWorld {
  GormDBs : gmap string (option DB);
  calls : list call
}.

(** A computation over the process state that may panic. *)
Definition M (A : Type) : Type := World -> result A * World.

#[global] Instance M_ret : MRet M := fun _ a w => (Ok a, w).
#[global] Instance M_bind : MBind M := fun _ _ f m w =>
  match m w with
  | (Ok a, w') => f a w'
  | (Panic p, w') => (Panic p, w')
  end.

Definition lift {A : Type} (r : result A) : M A := fun w => (r, w).

Definition get_GormDBs : M (gmap string (option DB)) :=
  fun w => (Ok (GormDBs w), w).

Definition set_GormDBs (m : gmap string (option DB)) : M unit :=
  fun w => (Ok tt, mkWorld m (calls w)).

(** A pointer to a variable of type [A]: [nil], or the cell it points to. *)
Inductive ptr (A : Type) : Type :=
  | NilPtr
  | Ref (cell : A).
Arguments NilPtr {A}.
Arguments Ref {A} cell.

(** [*p] *)
Definition deref {A : Type} (p : ptr A) : M A :=
  match p with
  | NilPtr => lift (Panic NilDereference)
  | Ref cell => mret cell
  end.

(** [strings.Join(elems, sep)] *)
Fixpoint Join (elems : list string) (sep : string) : string :=
  match elems with
  | [] => ""
  | [e] => e
  | e :: rest => e +:+ sep +:+ Join rest sep
  end.

(** [DBConfig] *)
Record DBConfig : Type := mkDBConfig {
  Host : string;
  Port : string;
  User : string;
  Password : string;
  DBName : string;
  Options : gmap string string;
  MaxIdleConns : Z;
  MaxOpenConns : Z;
  MaxLifetime : Z;
  MaxIdleTime : Z
}.

Definition Mysql : string := "mysql".

(** The [defaultOptions] literal of [buildDSN]. *)
Definition defaultOptions : gmap string string :=
  <["charset" := "utf8mb4"]> (<["parseTime" := "True"]> (<["loc" := "Local"]> ∅)).

(** ** Reflection-based time stamping *)

Definition is_time (v : value) : bool :=
  match v with
  | VTime _ => true
  | _ => false
  end.

(** The body of the field loop of [setTimeFields]. *)
Definition stamp_field (setCreateTime setUpdateTime : bool) (now : Z)
    (f : string * value) : string * value :=
  let '(fieldName, v) := f in
  if is_time v then
    if setCreateTime && case_of fieldName ["CreateTime"; "CreatedAt"] then
      (fieldName, VTime now)
    else if setUpdateTime && case_of fieldName ["UpdateTime"; "UpdatedAt"] then
      (fieldName, VTime now)
    else f
  else f.

(** [setTimeFields(data, setCreateTime, setUpdateTime)]: the data after the
    call and the returned error. Only fields reached through a pointer can
    be set. *)
Definition setTimeFields (now : Z) (data : value)
    (setCreateTime setUpdateTime : bool) : value * option error :=
  match data with
  | VNil => (data, None)
  | VPtr (VStruct fields) =>
      (VPtr (VStruct (map (stamp_field setCreateTime setUpdateTime now) fields)),
       None)
  | _ => (data, None)
  end.

Section Runtime.

Variable ToLower : string -> string.

(** The order in which a [for ... range] statement visits a map. The Go
    runtime leaves it unspecified; theorems assume only that every entry
    is visited once. *)
Variable range : forall V : Type, gmap string V -> list (string * V).

(** [time.Now()] *)
Variable now : Z.

Variable E : Engine.

(** A request to the engine: recorded, and answered by [respond]. *)
Definition engine (c : call) : M (option error) :=
  fun w => (Ok (respond E c), mkWorld (GormDBs w) (calls w ++ [c])).

(** ** Connection registry *)

(** [buildDSN(host, port, user, password, dbname, options)] *)
Definition buildDSN (host port user password dbname : string)
    (options : gmap string string) : string :=
  let dsn :=
    user +:+ ":" +:+ password +:+ "@tcp(" +:+ host +:+ ":" +:+ port +:+
    ")/" +:+ dbname in
  let defaultOptions :=
    foldl (fun m kv => <[kv.1 := kv.2]> m) defaultOptions (range _ options) in
  let queryParams :=
    foldl (fun acc kv => acc ++ [kv.1 +:+ "=" +:+ kv.2]) []
          (range _ defaultOptions) in
  if decide (0 < length queryParams) then
    dsn +:+ "?" +:+ Join queryParams "&"
  else dsn.

(** [GetDBDefault()] *)
Definition GetDBDefault : M (option DB) :=
  m ← get_GormDBs;
  match m !! Mysql with
  | Some (Some db) => mret (Some db)
  | _ => mret None
  end.

(** [GetDB(name)] *)
Definition GetDB (name : string) : M (option DB) :=
  if decide (name = "") then mret None
  else
    m ← get_GormDBs;
    match m !! name with
    | Some (Some db) => mret (Some db)
    | _ => mret None
    end.

(** One optional pool setting: applied only when positive. *)
Definition tune (n : Z) (c : call) : M unit :=
  if decide (0 < n)%Z then _ ← engine c; mret tt else mret tt.

(** The loop of [InitDBWithMap], over the entries in visiting order. *)
Fixpoint InitDBWithMap_loop (entries : list (string * DBConfig))
  : M (option error) :=
  match entries with
  | [] => mret None
  | (name, config) :: rest =>
      if bool_decide (Host config = "") || bool_decide (Port config = "")
         || bool_decide (User config = "") || bool_decide (DBName config = "")
      then mret (Some (ConfigError name))
      else
        let dsn := buildDSN (Host config) (Port config) (User config)
                            (Password config) (DBName config)
                            (Options config) in
        err ← engine (CallOpen dsn);
        match err with
        | Some err => mret (Some (ConnectError name err))
        | None =>
            let db := mkDB (open_conn E dsn) "" [] in
            let sqlDB := db_conn db in
            err ← engine (CallDB sqlDB);
            match err with
            | Some err =>
                mret (Some ("failed to get underlying sql.DB for " +:+ name
                            +:+ ": " +:+ err))
            | None =>
                _ ← tune (MaxIdleConns config)
                      (CallSetMaxIdleConns sqlDB (MaxIdleConns config));
                _ ← tune (MaxOpenConns config)
                      (CallSetMaxOpenConns sqlDB (MaxOpenConns config));
                _ ← tune (MaxLifetime config)
                      (CallSetConnMaxLifetime sqlDB (MaxLifetime config));
                _ ← tune (MaxIdleTime config)
                      (CallSetConnMaxIdleTime sqlDB (MaxIdleTime config));
                m ← get_GormDBs;
                _ ← set_GormDBs (<[name := Some db]> m);
                InitDBWithMap_loop rest
            end
        end
  end.

(** [InitDBWithMap(configs)] *)
Definition InitDBWithMap (configs : gmap string DBConfig) : M (option error) :=
  InitDBWithMap_loop (range _ configs).

(** [InitGormDB(config)] *)
Definition InitGormDB (config : DBConfig) : M (option error) :=
  InitDBWithMap {[ Mysql := config ]}.

(** The loop of [CloseAllDBs]; [lastErr] is the loop-carried variable. *)
Fixpoint CloseAllDBs_loop (entries : list (string * option DB))
    (lastErr : option error) : M (option error) :=
  match entries with
  | [] => mret lastErr
  | (name, None) :: rest => CloseAllDBs_loop rest lastErr
  | (name, Some db) :: rest =>
      err ← engine (CallDB (db_conn db));
      match err with
      | Some err =>
          CloseAllDBs_loop rest
            (Some ("failed to get sql.DB for " +:+ name +:+ ": " +:+ err))
      | None =>
          err ← engine (CallClose (db_conn db));
          match err with
          | Some err =>
              CloseAllDBs_loop rest
                (Some ("failed to close " +:+ name +:+ " database: " +:+ err))
          | None => CloseAllDBs_loop rest lastErr
          end
      end
  end.

(** [CloseAllDBs()] *)
Definition CloseAllDBs : M (option error) :=
  m ← get_GormDBs;
  lastErr ← CloseAllDBs_loop (range _ m) None;
  _ ← set_GormDBs ∅;
  mret lastErr.

(** ** Transactions *)

(** [CommitTx(tx, err)]; the result is the value of [*err] on return. *)
Definition CommitTx (tx : option DB) (err : ptr (option error))
  : M (option error) :=
  match tx with
  | None =>
      e ← deref err;
      match e with
      | None => mret (Some NilTransactionError)
      | Some _ => mret e
      end
  | Some tx =>
      e ← deref err;
      match e with
      | Some original =>
          rollbackErr ← engine (CallRollback tx);
          match rollbackErr with
          | Some rollbackErr =>
              mret (Some ("rollback failed: " +:+ rollbackErr +:+
                          ", original error: " +:+ original))
          | None => mret e
          end
      | None =>
          commitErr ← engine (CallCommit tx);
          match commitErr with
          | Some commitErr => mret (Some ("commit failed: " +:+ commitErr))
          | None => mret e
          end
      end
  end.

(** ** Query facade *)

(** The receiver of a GORM method call: GORM dereferences it. *)
Definition receiver (db : option DB) : M DB :=
  match db with
  | None => lift (Panic NilDereference)
  | Some db => mret db
  end.

(** [db.Table(name)] *)
Definition Table (db : option DB) (name : string) : M DB :=
  db ← receiver db;
  mret (mkDB (db_conn db) name (db_where db)).

(** [Query(table, args...)] *)
Definition Query (table : string) (args : list (list (list value))) : M DB :=
  db ← GetDBDefault;
  query ← Table db table;
  lift (applyGormWhere ToLower query args).

(** [QueryTx(tx, table, args...)] *)
Definition QueryTx (tx : option DB) (table : string)
    (args : list (list (list value))) : M (option DB) :=
  match tx with
  | None => mret None
  | Some _ =>
      query ← Table tx table;
      query ← lift (applyGormWhere ToLower query args);
      mret (Some query)
  end.

(** [Insert(table, data)] *)
Definition Insert (table : string) (data : value) : M (option error) :=
  db ← GetDBDefault;
  query ← Table db table;
  engine (CallCreate query data).

(** [InsertStruct(table, data)] *)
Definition InsertStruct (table : string) (data : value) : M (option error) :=
  let '(data, err) := setTimeFields now data true true in
  match err with
  | Some err => mret (Some err)
  | None =>
      db ← GetDBDefault;
      query ← Table db table;
      engine (CallCreate query data)
  end.

(** [InsertTx(tx, table, data)] *)
Definition InsertTx (tx : option DB) (table : string) (data : value)
  : M (option error) :=
  match tx with
  | None => mret (Some "transaction is nil")
  | Some _ =>
      query ← Table tx table;
      engine (CallCreate query data)
  end.

(** [InsertStructTx(tx, table, data)] *)
Definition InsertStructTx (tx : option DB) (table : string) (data : value)
  : M (option error) :=
  match tx with
  | None => mret (Some "transaction is nil")
  | Some _ =>
      let '(data, err) := setTimeFields now data true true in
      match err with
      | Some err => mret (Some err)
      | None =>
          query ← Table tx table;
          engine (CallCreate query data)
      end
  end.

(** [InsertBatch(table, data)] *)
Definition InsertBatch (table : string) (data : list value)
  : M (option error) :=
  db ← GetDBDefault;
  query ← Table db table;
  engine (CallCreateInBatches query data 100).

(** [InsertBatchTx(tx, table, data)] *)
Definition InsertBatchTx (tx : option DB) (table : string)
    (data : list value) : M (option error) :=
  match tx with
  | None => mret (Some "transaction is nil")
  | Some _ =>
      query ← Table tx table;
      engine (CallCreateInBatches query data 100)
  end.

(** [Update(table, data, args...)] *)
Definition Update (table : string) (data : value)
    (args : list (list (list value))) : M (option error) :=
  if decide (length args = 0) then mret (Some "update: invalid condition")
  else
    query ← Query table args;
    engine (CallUpdates query data).

(** [UpdateTx(tx, table, data, args...)] *)
Definition UpdateTx (tx : option DB) (table : string) (data : value)
    (args : list (list (list value))) : M (option error) :=
  match tx with
  | None => mret (Some "transaction is nil")
  | Some _ =>
      if decide (length args = 0) then mret (Some "update: invalid condition")
      else
        query ← QueryTx tx table args;
        query ← receiver query;
        engine (CallUpdates query data)
  end.

(** [Delete(table, args...)] *)
Definition Delete (table : string) (args : list (list (list value)))
  : M (option error) :=
  if decide (length args = 0) then mret (Some "delete: invalid condition")
  else
    query ← Query table args;
    engine (CallDelete query).

(** [DeleteTx(tx, table, args...)] *)
Definition DeleteTx (tx : option DB) (table : string)
    (args : list (list (list value))) : M (option error) :=
  match tx with
  | None => mret (Some "delete: invalid condition")
  | Some _ =>
      if decide (length args = 0) then mret (Some "delete: invalid condition")
      else
        query ← QueryTx tx table args;
        query ← receiver query;
        engine (CallDelete query)
  end.

End Runtime.

Section Sessions.

(** [db.Begin()]: the transaction handle and its [Error] field. The handle
    is never nil. The request is answered here and leaves no entry in
    [calls]. *)
Variable Begin : DB -> DB * option error.

(** [BeginTx(dbName)] *)
Definition BeginTx (dbName : string) : M (option DB * option error) :=
  db ← GetDB dbName;
  match db with
  | None => mret (None, Some ("database " +:+ dbName +:+ " not found"))
  | Some db =>
      let tx := Begin db in
      mret (Some tx.1, tx.2)
  end.

(** [BeginTxDefault()] *)
Definition BeginTxDefault : M (option DB * option error) :=
  BeginTx Mysql.

End Sessions.

(** ** Instance naming *)

(** The byte ['.']. *)
Definition dot : Ascii.ascii :=
  Ascii.Ascii false true true true false true false false.

(** [strings.Index(s, ".")]: the offset of the first dot, or -1. *)
Fixpoint Index_dot (s : string) : Z :=
  match s with
  | EmptyString => -1
  | String c s' =>
      if Ascii.eqb c dot then 0
      else
        let i := Index_dot s' in
        if decide (i < 0)%Z then -1 else (i + 1)%Z
  end.

(** [string([]byte(s)[:n])] for [n] within the length of [s]. *)
Fixpoint take_bytes (n : nat) (s : string) : string :=
  match n, s with
  | S n', String c s' => String c (take_bytes n' s')
  | _, _ => EmptyString
  end.

(** [GetSvrMark(svrName, serVerid...)], given what [os.Hostname] and
    [os.Getpid] answer. *)
Definition GetSvrMark (os_hostname : string) (os_pid : Z) (svrName : string)
    (serVerid : list string) : string :=
  let hostname := os_hostname in
  let pidx := Index_dot hostname in
  let hostname :=
    if decide (0 < pidx)%Z then take_bytes (Z.to_nat (pidx - 1)) hostname
    else hostname in
  match serVerid with
  | id :: _ =>
      if decide (0 < String.length id) then svrName +:+ "-" +:+ id
      else hostname +:+ "-" +:+ svrName +:+ "-" +:+ pretty os_pid
  | [] => hostname +:+ "-" +:+ svrName +:+ "-" +:+ pretty os_pid
  end.

(** ** Vocabulary of the statements *)

(** A condition tuple the translator can process: non-empty, with a string
    in first position. *)
Definition well_formed_condition (arg : list value) : Prop :=
  exists (s : string) (rest : list value), arg = VStr s :: rest.

(** [needle] occurs in [haystack]. *)
Definition contains (haystack needle : string) : Prop :=
  exists pre post : string, haystack = pre +:+ needle +:+ post.

(** The required fields of a [DBConfig] are all present. *)
Definition required_fields (config : DBConfig) : Prop :=
  Host config <> "" /\ Port config <> "" /\ User config <> "" /\
  DBName config <> "".

(** One [key=value] element of the query string. *)
Definition query_param (kv : string * string) : string :=
  kv.1 +:+ "=" +:+ kv.2.

(** The error, if any, met while closing one registry entry. *)
Definition close_error (E : Engine) (entry : string * option DB)
  : option error :=
  match entry with
  | (_, None) => None
  | (name, Some db) =>
      match respond E (CallDB (db_conn db)) with
      | Some err => Some ("failed to get sql.DB for " +:+ name +:+ ": " +:+ err)
      | None =>
          match respond E (CallClose (db_conn db)) with
          | Some err =>
              Some ("failed to close " +:+ name +:+ " database: " +:+ err)
          | None => None
          end
      end
  end.

(** The requests made to the engine for one registry entry. *)
Definition close_calls (E : Engine) (entry : string * option DB) : list call :=
  match entry with
  | (_, None) => []
  | (_, Some db) =>
      CallDB (db_conn db) ::
      match respond E (CallDB (db_conn db)) with
      | Some _ => []
      | None => [CallClose (db_conn db)]
      end
  end.

(** The operator tokens the translator knows, after lower-casing. *)
Definition scalar_operators : list string :=
  ["="; ">"; "<"; ">="; "<="; "!="; "<>"; "like"; "not like"].

Definition known_operators : list string :=
  scalar_operators ++ ["in"; "not in"; "between"; "not between"].

(** The names of the time fields that are stamped. *)
Definition stamp_names : list string :=
  ["CreateTime"; "CreatedAt"; "UpdateTime"; "UpdatedAt"].

(** The connection string and the connection of one configuration. *)
Definition config_dsn (range : forall V : Type, gmap string V -> list (string * V))
    (config : DBConfig) : string :=
  buildDSN range (Host config) (Port config) (User config) (Password config)
           (DBName config) (Options config).

Definition config_db (range : forall V : Type, gmap string V -> list (string * V))
    (E : Engine) (config : DBConfig) : DB :=
  mkDB (open_conn E (config_dsn range config)) "" [].

(** The engine opens the connection of a configuration and exposes its
    pool. *)
Definition accepted (range : forall V : Type, gmap string V -> list (string * V))
    (E : Engine) (config : DBConfig) : Prop :=
  respond E (CallOpen (config_dsn range config)) = None /\
  respond E (CallDB (open_conn E (config_dsn range config))) = None.

(** The request made by one optional pool setting. *)
Definition tune_calls (n : Z) (c : call) : list call :=
  if decide (0 < n)%Z then [c] else [].

(** Concrete inputs used to exercise the statements. *)
Definition visit_sorted : forall V : Type, gmap string V -> list (string * V) :=
  fun V m => map_to_list m.

Definition visit_reversed : forall V : Type, gmap string V -> list (string * V) :=
  fun V m => reverse (map_to_list m).

Definition engine_ok : Engine :=
  mkEngine (fun _ => None) (fun _ => 7).

Definition engine_refusing : Engine :=
  mkEngine (fun c => match c with
                     | CallOpen _ => Some "dial tcp: connection refused"
                     | _ => None
                     end)
           (fun _ => 7).

Definition engine_failing : Engine :=
  mkEngine (fun c => match c with
                     | CallRollback _ => Some "tx already closed"
                     | CallCommit _ => Some "deadlock"
                     | CallClose 2 => Some "busy"
                     | CallDB 4 => Some "no pool"
                     | _ => None
                     end)
           (fun _ => 7).

(** An engine that, like GORM by default, rejects an update or a delete
    that carries no predicate. *)
Definition engine_strict : Engine :=
  mkEngine (fun c => match c with
                     | CallUpdates (mkDB _ _ []) _ | CallDelete (mkDB _ _ []) =>
                         Some "WHERE conditions required"
                     | _ => None
                     end)
           (fun _ => 7).

Definition sample_config : DBConfig :=
  mkDBConfig "db.local" "3306" "app" "secret" "shop"
             (<["charset" := "latin1"]> (<["timeout" := "5s"]> ∅)) 5 0 0 0.

(** A configuration without a port, and a two-entry configuration map. *)
Definition broken_config : DBConfig :=
  mkDBConfig "db.local" "" "app" "secret" "shop" ∅ 0 0 0 0.

Definition mixed_configs : gmap string DBConfig :=
  <["main" := sample_config]> (<["replica" := broken_config]> ∅).

Definition sample_db : DB := mkDB 1 "" [].

Definition sample_world : World :=
  mkWorld (<[Mysql := Some sample_db]> ∅) [].

Definition crowded_world : World :=
  mkWorld (<["orders" := Some (mkDB 2 "" [])]>
           (<["users" := Some (mkDB 3 "" [])]>
            (<["audit" := Some (mkDB 4 "" [])]>
             (<["spare" := None]> ∅)))) [].

Definition empty_world : World := mkWorld ∅ [].

(** A [Begin] whose transaction could not be started. *)
Definition begin_failing (db : DB) : DB * option error :=
  (db, Some "too many connections").

(** * Properties *)

(** ** The condition translator *)

Section TranslatorProperties.

Variable ToLower : string -> string.

Lemma foldM_app {A B : Type} (f : A -> B -> result A) (a : A) (l1 l2 : list B) :
  foldM f a (l1 ++ l2) = (a' ← foldM f a l1; foldM f a' l2).
Proof.
  revert a. induction l1 as [|b l1 IH]; intros a; simpl; [done|].
  destruct (f a b) as [a'|p]; simpl; [apply IH|done].
Qed.

(** The translator visits the conditions of all groups in order. *)
Lemma applyGormWhere_concat (query : DB) (args : list (list (list value))) :
  applyGormWhere ToLower query args =
  foldM (applyCondition ToLower) query (concat args).
Proof.
  unfold applyGormWhere. revert query.
  induction args as [|w args IH]; intros query; simpl; [done|].
  rewrite foldM_app.
  destruct (foldM (applyCondition ToLower) query w); simpl; [apply IH|done].
Qed.

Lemma foldM_ok_iff {A B : Type} (f : A -> B -> result A) (P : B -> Prop)
    (l : list B) :
  (forall a b, (exists a', f a b = Ok a') <-> P b) ->
  forall a, (exists a', foldM f a l = Ok a') <-> Forall P l.
Proof.
  intros Hf. induction l as [|b l IH]; intros a; simpl.
  - split; [constructor|eauto].
  - rewrite Forall_cons. split.
    + intros [a' Ha']. destruct (f a b) as [a1|p] eqn:Hfab; simpl in Ha';
        [|discriminate].
      split; [apply (Hf a b); eauto|apply (IH a1); eauto].
    + intros [Hb Hl]. apply (Hf a b) in Hb as [a1 Ha1]. rewrite Ha1. simpl.
      by apply IH.
Qed.

Lemma applyCondition_string_first (query : DB) (s : string)
    (rest : list value) :
  exists query', applyCondition ToLower query (VStr s :: rest) = Ok query'.
Proof.
  destruct rest as [|a1 [|a2 [|a3 rest]]]; simpl; eauto.
  unfold applyCondition; simpl.
  destruct (as_string a1) as [operator|]; simpl; eauto.
  repeat (case_match; eauto).
  destruct a2 as [| | | | |elems| | | |]; simpl in *; try discriminate;
    simplify_eq.
  match goal with
  | Hlen : length ?l = 2 |- _ =>
      destruct l as [|s0 [|s1 [|s2 l]]]; simpl in *; try lia; eauto
  end.
Qed.

Lemma applyCondition_not_string (query : DB) (v : value) (rest : list value) :
  is_string v = false ->
  applyCondition ToLower query (v :: rest) = Panic TypeAssertion.
Proof.
  intros Hv. destruct v; try discriminate;
    destruct rest as [|a1 [|a2 [|a3 rest]]]; reflexivity.
Qed.

(** C1, as amended. A three-element condition whose lower-cased operator
    is [between] or [not between] adds exactly the predicate
    [field <op> ? AND ?], bound to the two elements in order, when its
    value is a two-element [[]interface{}]; for any other value, a
    two-element slice of another type such as [[]int] included, it adds
    nothing and the translation goes on without failure. *)
Theorem between_condition (query : DB) (field op : string) (v : value) :
  ToLower op = "between" \/ ToLower op = "not between" ->
  (forall lo hi : value, v = VAnySlice [lo; hi] ->
     applyCondition ToLower query [VStr field; VStr op; v] =
     Ok (Where query (field +:+ " " +:+ ToLower op +:+ " ? AND ?") [lo; hi]))
  /\ ((forall lo hi : value, v <> VAnySlice [lo; hi]) ->
      applyCondition ToLower query [VStr field; VStr op; v] = Ok query).
Proof.
  intros Hop. unfold applyCondition; simpl.
  split.
  - intros lo hi ->. destruct Hop as [-> | ->]; reflexivity.
  - intros Hv.
    assert (match as_any_slice v with
            | Some slice =>
                if decide (length slice = 2) then
                  s0 ← index slice 0; s1 ← index slice 1;
                  Ok (Where query
                        (field +:+ " " +:+ ToLower op +:+ " ? AND ?") [s0; s1])
                else Ok query
            | None => Ok query
            end = Ok query) as Hdrop.
    { destruct v as [| | | | |elems| | | |]; simpl; try reflexivity.
      destruct elems as [|s0 [|s1 [|s2 elems]]]; simpl; try reflexivity.
      by destruct (Hv s0 s1). }
    destruct Hop as [Hop | Hop]; rewrite Hop in *; exact Hdrop.
Qed.

(** C5. A condition tuple of a length other than 2 and 3 whose first
    element is a string is passed on as raw SQL: the first element is the
    predicate text and the remaining elements are its parameters, in
    order; the translation does not fail. *)
Theorem raw_condition (query : DB) (sqlStr : string) (params : list value) :
  length (VStr sqlStr :: params) <> 2 ->
  length (VStr sqlStr :: params) <> 3 ->
  applyCondition ToLower query (VStr sqlStr :: params) =
  Ok (Where query sqlStr params).
Proof.
  intros H2 H3.
  destruct params as [|a1 [|a2 [|a3 params]]]; simpl in *; try lia;
    reflexivity.
Qed.

(** C9. The translator goes through exactly when every condition tuple is
    non-empty and starts with a string. An empty tuple panics on the
    index, and a tuple of any length (2, 3 or other) whose first element
    is not a string panics on the type assertion; neither is skipped or
    reported as an error. *)
Theorem translator_total_iff :
  (forall query, applyCondition ToLower query [] = Panic IndexOutOfRange)
  /\ (forall query v rest, is_string v = false ->
        applyCondition ToLower query (v :: rest) = Panic TypeAssertion)
  /\ (forall query arg,
        (exists query', applyCondition ToLower query arg = Ok query') <->
        well_formed_condition arg)
  /\ (forall query args,
        (exists query', applyGormWhere ToLower query args = Ok query') <->
        Forall well_formed_condition (concat args)).
Proof.
  assert (forall query arg,
        (exists query', applyCondition ToLower query arg = Ok query') <->
        well_formed_condition arg) as Hone.
  { intros query arg. split.
    - intros [query' Hq]. destruct arg as [|v rest]; [discriminate|].
      destruct (is_string v) eqn:Hv.
      + destruct v as [| | |s| | | | | |]; try discriminate. by exists s, rest.
      + rewrite applyCondition_not_string in Hq by done. discriminate.
    - intros (s & rest & ->). apply applyCondition_string_first. }
  split; [reflexivity|].
  split; [intros; by apply applyCondition_not_string|].
  split; [exact Hone|].
  intros query args. rewrite applyGormWhere_concat.
  by apply foldM_ok_iff.
Qed.

End TranslatorProperties.

Lemma between_condition_witness :
  (ToLower_ascii "BETWEEN" = "between"
   \/ ToLower_ascii "BETWEEN" = "not between")
  /\ applyCondition ToLower_ascii sample_db
       [VStr "age"; VStr "BETWEEN"; VAnySlice [VInt 18; VInt 65]] =
     Ok (Where sample_db "age between ? AND ?" [VInt 18; VInt 65])
  /\ applyCondition ToLower_ascii sample_db
       [VStr "age"; VStr "Not Between"; VIntSlice [18%Z; 65%Z]] =
     Ok sample_db.
Proof.
  split; [left; reflexivity|]. split.
  - destruct (between_condition ToLower_ascii sample_db "age" "BETWEEN"
                (VAnySlice [VInt 18; VInt 65])) as [Hkeep _];
      [left; reflexivity|].
    exact (Hkeep (VInt 18) (VInt 65) eq_refl).
  - destruct (between_condition ToLower_ascii sample_db "age" "Not Between"
                (VIntSlice [18%Z; 65%Z])) as [_ Hdrop];
      [right; reflexivity|].
    apply Hdrop. intros lo hi. discriminate.
Defined.

(** C1, as stated, fails: a value that is a two-element sequence, but of
    type [[]int] or [[]string] rather than [[]interface{}], adds no
    predicate. *)
Lemma between_typed_pair_dropped :
  length [18%Z; 65%Z] = 2
  /\ applyCondition ToLower_ascii sample_db
       [VStr "age"; VStr "between"; VIntSlice [18%Z; 65%Z]] = Ok sample_db
  /\ applyCondition ToLower_ascii sample_db
       [VStr "name"; VStr "NOT BETWEEN"; VStrSlice ["a"; "m"]] = Ok sample_db
  /\ Ok sample_db <>
     Ok (Where sample_db "age between ? AND ?" [VInt 18; VInt 65]).
Proof.
  repeat split; try reflexivity.
  intros Heq. apply (f_equal (fun r => match r with
                                       | Ok q => length (db_where q)
                                       | Panic _ => 0
                                       end)) in Heq.
  discriminate.
Qed.

Lemma raw_condition_witness :
  applyCondition ToLower_ascii sample_db
    [VStr "a = ? OR b BETWEEN ? AND ?"; VInt 1; VInt 2; VInt 3] =
  Ok (Where sample_db "a = ? OR b BETWEEN ? AND ?" [VInt 1; VInt 2; VInt 3])
  /\ applyCondition ToLower_ascii sample_db [VStr "deleted_at IS NULL"] =
     Ok (Where sample_db "deleted_at IS NULL" []).
Proof.
  split.
  - apply (raw_condition ToLower_ascii sample_db "a = ? OR b BETWEEN ? AND ?"
             [VInt 1; VInt 2; VInt 3]); simpl; lia.
  - apply (raw_condition ToLower_ascii sample_db "deleted_at IS NULL" []);
      simpl; lia.
Defined.

Lemma translator_total_iff_witness :
  applyCondition ToLower_ascii sample_db [VInt 7; VStr "x"] =
    Panic TypeAssertion
  /\ applyCondition ToLower_ascii sample_db [VInt 7; VStr "="; VStr "x"] =
    Panic TypeAssertion
  /\ applyCondition ToLower_ascii sample_db [VInt 7] = Panic TypeAssertion.
Proof.
  destruct (translator_total_iff ToLower_ascii) as (_ & Hpanic & _ & _).
  repeat split; apply Hpanic; reflexivity.
Defined.

(** ** Registry, transactions and facade *)

Lemma append_assoc (a b c : string) : (a +:+ b) +:+ c = a +:+ b +:+ c.
Proof.
  induction a as [|x a IH]; [done|].
  change (String x ((a +:+ b) +:+ c) = String x (a +:+ b +:+ c)). by f_equal.
Qed.

Lemma append_nil_r (a : string) : a +:+ "" = a.
Proof.
  induction a as [|x a IH]; [done|].
  change (String x (a +:+ "") = String x a). by f_equal.
Qed.

Lemma contains_infix (pre needle post : string) :
  contains (pre +:+ needle +:+ post) needle.
Proof. by exists pre, post. Qed.

Lemma contains_suffix (pre needle : string) : contains (pre +:+ needle) needle.
Proof. exists pre, "". by rewrite append_nil_r. Qed.

Lemma bind_run {A B : Type} (m : M A) (f : A -> M B) (w w' : World) (a : A) :
  m w = (Ok a, w') -> (m ≫= f) w = f a w'.
Proof. intros Hm. unfold mbind, M_bind. by rewrite Hm. Qed.

Lemma omap_cons_eq {A B : Type} (f : A -> option B) (x : A) (l : list A) :
  omap f (x :: l) =
  match f x with Some y => y :: omap f l | None => omap f l end.
Proof. reflexivity. Qed.

Lemma foldl_snoc_map {A B : Type} (f : A -> B) (l : list A) (acc : list B) :
  foldl (fun acc x => acc ++ [f x]) acc l = acc ++ map f l.
Proof.
  revert acc. induction l as [|x l IH]; intros acc; simpl.
  - by rewrite app_nil_r.
  - by rewrite IH, <- app_assoc.
Qed.

(** Inserting the entries of a list one by one, later entries winning. *)
Lemma foldl_insert_union (l : list (string * string))
    (m0 : gmap string string) :
  foldl (fun m kv => <[kv.1 := kv.2]> m) m0 l = list_to_map (reverse l) ∪ m0.
Proof.
  revert m0. induction l as [|[k v] l IH]; intros m0; simpl.
  - by rewrite (left_id_L ∅ (∪)).
  - rewrite IH, reverse_cons, list_to_map_app. simpl.
    rewrite <- (assoc_L (∪)). f_equal.
    by rewrite <- insert_union_l, (left_id_L ∅ (∪)).
Qed.

Ltac run_M :=
  unfold mbind, M_bind, mret, M_ret, engine, deref, lift, get_GormDBs,
    set_GormDBs; simpl.

Section RuntimeProperties.

Variable ToLower : string -> string.
Variable range : forall V : Type, gmap string V -> list (string * V).
Hypothesis range_visits_all :
  forall (V : Type) (m : gmap string V), range V m ≡ₚ map_to_list m.
Variable now : Z.
Variable E : Engine.

(** C2. [CommitTx] with a nil transaction sets a nil caller error to
    [NilTransactionError] and leaves a non-nil one as it is. With a
    transaction and a caller error, it issues a rollback: if the rollback
    fails the final error holds both the rollback failure and the
    original error, otherwise the original error stays. With a
    transaction and no caller error, it issues a commit, and a commit
    failure becomes the caller's error. *)
Theorem CommitTx_discipline (w : World) :
  CommitTx E None (Ref None) w = (Ok (Some NilTransactionError), w)
  /\ (forall e, CommitTx E None (Ref (Some e)) w = (Ok (Some e), w))
  /\ (forall tx e,
        exists final,
          CommitTx E (Some tx) (Ref (Some e)) w =
            (Ok (Some final),
             mkWorld (GormDBs w) (calls w ++ [CallRollback tx]))
          /\ (forall r, respond E (CallRollback tx) = Some r ->
                final =
                  "rollback failed: " +:+ r +:+ ", original error: " +:+ e
                /\ contains final r /\ contains final e)
          /\ (respond E (CallRollback tx) = None -> final = e))
  /\ (forall tx,
        CommitTx E (Some tx) (Ref None) w =
          (Ok (match respond E (CallCommit tx) with
               | Some c => Some ("commit failed: " +:+ c)
               | None => None
               end),
           mkWorld (GormDBs w) (calls w ++ [CallCommit tx]))).
Proof.
  repeat split.
  - intros tx e. unfold CommitTx. run_M.
    destruct (respond E (CallRollback tx)) as [r|] eqn:Hr.
    + eexists; split; [reflexivity|]. split; [|done].
      intros r' [= <-]. split; [done|]. split.
      * apply contains_infix.
      * rewrite <- !append_assoc. apply contains_suffix.
    + eexists; split; [reflexivity|]. split; [done|]. done.
  - intros tx. unfold CommitTx. run_M.
    by destruct (respond E (CallCommit tx)).
Qed.

(** C10. [CommitTx] reads [*err] first in every branch, with or without
    a transaction: called with a nil error pointer it panics, before any
    request reaches the engine. *)
Theorem CommitTx_nil_pointer (tx : option DB) (w : World) :
  CommitTx E tx NilPtr w = (Panic NilDereference, w).
Proof. by destruct tx. Qed.

Lemma range_singleton {V : Type} (k : string) (v : V) :
  range V {[k := v]} = [(k, v)].
Proof.
  apply Permutation_singleton_r. rewrite range_visits_all.
  by rewrite map_to_list_singleton.
Qed.

Lemma tune_spec (n : Z) (c : call) (w : World) :
  tune E n c w = (Ok tt, mkWorld (GormDBs w) (calls w ++ tune_calls n c)).
Proof.
  unfold tune, tune_calls. destruct (decide (0 < n)%Z).
  - reflexivity.
  - rewrite app_nil_r. by destruct w.
Qed.

(** C3, as amended. For one configuration entry [(name, config)]: when
    host, port, user and database name are all non-empty and the engine
    opens the connection and exposes its pool, [InitDBWithMap] succeeds
    and changes the registry at [name] only, binding it to the opened
    connection; when the engine refuses the connection it fails with
    [ConnectError] and the registry is unchanged; when one of the four
    fields is empty it fails with [ConfigError], the registry is
    unchanged and the engine is not contacted. *)
Theorem configure_single (name : string) (config : DBConfig) (w : World) :
  let dsn := buildDSN range (Host config) (Port config) (User config)
                      (Password config) (DBName config) (Options config) in
  let db := mkDB (open_conn E dsn) "" [] in
  let sqlDB := db_conn db in
  (required_fields config ->
   respond E (CallOpen dsn) = None ->
   respond E (CallDB sqlDB) = None ->
   InitDBWithMap range E {[name := config]} w =
     (Ok None,
      mkWorld (<[name := Some db]> (GormDBs w))
              (calls w ++ [CallOpen dsn; CallDB sqlDB]
               ++ tune_calls (MaxIdleConns config)
                    (CallSetMaxIdleConns sqlDB (MaxIdleConns config))
               ++ tune_calls (MaxOpenConns config)
                    (CallSetMaxOpenConns sqlDB (MaxOpenConns config))
               ++ tune_calls (MaxLifetime config)
                    (CallSetConnMaxLifetime sqlDB (MaxLifetime config))
               ++ tune_calls (MaxIdleTime config)
                    (CallSetConnMaxIdleTime sqlDB (MaxIdleTime config)))))
  /\ (forall err, required_fields config ->
      respond E (CallOpen dsn) = Some err ->
      InitDBWithMap range E {[name := config]} w =
        (Ok (Some (ConnectError name err)),
         mkWorld (GormDBs w) (calls w ++ [CallOpen dsn])))
  /\ (~ required_fields config ->
      InitDBWithMap range E {[name := config]} w =
        (Ok (Some (ConfigError name)), w)).
Proof.
  intros dsn db sqlDB. unfold InitDBWithMap. rewrite range_singleton. simpl.
  assert (required_fields config ->
    bool_decide (Host config = "") || bool_decide (Port config = "")
    || bool_decide (User config = "") || bool_decide (DBName config = "")
    = false) as Hvalid.
  { intros (Hh & Hp & Hu & Hd).
    by rewrite !bool_decide_eq_false_2. }
  split; [|split].
  - intros Hreq Hopen Hdb. rewrite (Hvalid Hreq). fold dsn.
    unfold mbind at 1, M_bind at 1. unfold engine at 1. rewrite Hopen.
    unfold mbind at 1, M_bind at 1. unfold engine at 1. simpl.
    fold dsn. subst sqlDB db. simpl in Hdb. rewrite Hdb.
    do 4 (erewrite bind_run by apply tune_spec).
    run_M. fold dsn.
    by rewrite <- !app_assoc.
  - intros err Hreq Hopen. rewrite (Hvalid Hreq). fold dsn.
    unfold mbind at 1, M_bind at 1. unfold engine at 1. by rewrite Hopen.
  - intros Hreq.
    destruct (bool_decide (Host config = "") || bool_decide (Port config = "")
      || bool_decide (User config = "") || bool_decide (DBName config = ""))
      eqn:Hc; [done|].
    exfalso. apply Hreq.
    apply orb_false_elim in Hc as [Hc Hd].
    apply orb_false_elim in Hc as [Hc Hu].
    apply orb_false_elim in Hc as [Hh Hp].
    apply bool_decide_eq_false in Hh, Hp, Hu, Hd. done.
Qed.

(** The loop of [CloseAllDBs] never stops early: it returns the last
    error met, or the incoming [lastErr] when none is met. *)
Lemma CloseAllDBs_loop_spec (entries : list (string * option DB))
    (lastErr : option error) (w : World) :
  CloseAllDBs_loop E entries lastErr w =
    (Ok (match last (omap (close_error E) entries) with
         | Some e => Some e
         | None => lastErr
         end),
     mkWorld (GormDBs w) (calls w ++ flat_map (close_calls E) entries)).
Proof.
  revert lastErr w.
  induction entries as [|[name [db|]] entries IH]; intros lastErr w.
  - simpl. rewrite app_nil_r. by destruct w.
  - rewrite omap_cons_eq.
    cbn [CloseAllDBs_loop flat_map close_error close_calls].
    unfold mbind at 1, M_bind at 1. unfold engine at 1.
    destruct (respond E (CallDB (db_conn db))) as [err|] eqn:HDB.
    + rewrite IH. cbn [GormDBs calls]. rewrite <- !app_assoc. cbn [app].
      rewrite last_cons. by destruct (last _).
    + unfold mbind at 1, M_bind at 1. unfold engine at 1.
      cbn [GormDBs calls].
      destruct (respond E (CallClose (db_conn db))) as [err|] eqn:HClose;
        rewrite IH; cbn [GormDBs calls]; rewrite <- !app_assoc; cbn [app].
      * rewrite last_cons. by destruct (last _).
      * done.
  - rewrite omap_cons_eq.
    cbn [CloseAllDBs_loop flat_map close_error close_calls app].
    apply IH.
Qed.

(** C6. [CloseAllDBs] goes through every registry entry whatever fails on
    the way: each registered connection is asked for its pool and, when
    the pool is available, closed. It returns the last error met in
    visiting order, or no error when nothing failed, and it always leaves
    the registry empty. *)
Theorem CloseAllDBs_spec (w : World) :
  let entries := range _ (GormDBs w) in
  CloseAllDBs range E w =
    (Ok (last (omap (close_error E) entries)),
     mkWorld ∅ (calls w ++ flat_map (close_calls E) entries))
  /\ (forall name db,
        GormDBs w !! name = Some (Some db) ->
        CallDB (db_conn db) ∈ flat_map (close_calls E) entries
        /\ (respond E (CallDB (db_conn db)) = None ->
            CallClose (db_conn db) ∈ flat_map (close_calls E) entries)).
Proof.
  intros entries. split.
  - unfold CloseAllDBs. run_M. fold entries.
    rewrite CloseAllDBs_loop_spec. simpl. by destruct (last _).
  - intros name db Hdb.
    assert ((name, Some db) ∈ entries) as Hin.
    { unfold entries. rewrite range_visits_all.
      by apply elem_of_map_to_list. }
    split; [|intros HDB]; apply list_elem_of_In, in_flat_map;
      exists (name, Some db); (split; [by apply list_elem_of_In|]);
      simpl.
    + by left.
    + rewrite HDB. right. by left.
Qed.

(** Ranging over the caller's options and writing them into the default
    map yields the union in which the caller's options win. *)
Lemma merge_options (options : gmap string string) :
  foldl (fun m kv => <[kv.1 := kv.2]> m) defaultOptions (range _ options)
  = options ∪ defaultOptions.
Proof.
  rewrite foldl_insert_union. f_equal.
  rewrite <- (list_to_map_to_list options) at 2.
  apply list_to_map_proper.
  - rewrite reverse_Permutation, range_visits_all.
    apply NoDup_fst_map_to_list.
  - by rewrite reverse_Permutation, range_visits_all.
Qed.

(** C8. The connection string is [user:password@tcp(host:port)/dbname],
    then [?], then the [key=value] pairs, joined by [&], of the map that
    holds the caller's options and, for the keys the caller does not set,
    the defaults [charset=utf8mb4], [parseTime=True], [loc=Local]; each
    pair of that map occurs exactly once, in an order that is left
    open. *)
Theorem buildDSN_format (host port user password dbname : string)
    (options : gmap string string) :
  let merged := options ∪ defaultOptions in
  (forall k, merged !! k =
             match options !! k with
             | Some v => Some v
             | None => defaultOptions !! k
             end)
  /\ exists kvs : list (string * string),
       kvs ≡ₚ map_to_list merged
       /\ buildDSN range host port user password dbname options =
          (user +:+ ":" +:+ password +:+ "@tcp(" +:+ host +:+ ":" +:+ port
           +:+ ")/" +:+ dbname)
          +:+ "?" +:+ Join (map query_param kvs) "&".
Proof.
  intros merged. split.
  - intros k. unfold merged. rewrite lookup_union.
    by destruct (options !! k), (defaultOptions !! k).
  - exists (range _ merged). split; [apply range_visits_all|].
    unfold buildDSN. rewrite merge_options. fold merged.
    rewrite foldl_snoc_map. simpl.
    change (map _ (range _ merged)) with (map query_param (range _ merged)).
    destruct (decide (0 < length (map query_param (range _ merged))))
      as [|Hlen]; [done|].
    exfalso. apply Hlen. rewrite length_map.
    rewrite (Permutation_length (range_visits_all _ merged)).
    assert (merged !! "charset" <> None) as Hc.
    { unfold merged. rewrite lookup_union.
      destruct (options !! "charset"); done. }
    destruct (map_to_list merged) as [|kv l] eqn:Hl; simpl; [|lia].
    apply map_to_list_empty_iff in Hl. rewrite Hl in Hc. done.
Qed.

(** C4, as amended. Given a nil transaction, the transaction-bound
    insert, insert with automatic time stamps, batch insert and update
    fail with [NilTransactionError] without contacting the engine, and
    the transaction-bound query returns a nil builder and no error
    value. *)
Theorem nil_transaction_variants (w : World) (table : string) (data : value)
    (rows : list value) (args : list (list (list value))) :
  InsertTx E None table data w = (Ok (Some NilTransactionError), w)
  /\ InsertStructTx now E None table data w =
       (Ok (Some NilTransactionError), w)
  /\ InsertBatchTx E None table rows w = (Ok (Some NilTransactionError), w)
  /\ UpdateTx ToLower E None table data args w =
       (Ok (Some NilTransactionError), w)
  /\ QueryTx ToLower None table args w = (Ok None, w).
Proof. by repeat split. Qed.

(** C7, as amended. [Update] and [Delete] called without any condition
    group fail with [NoConditionError]; the state is unchanged, so the
    default connection is not looked up and the engine is not
    contacted. *)
Theorem mutation_without_groups (w : World) (table : string) (data : value) :
  Update ToLower E table data [] w =
    (Ok (Some (NoConditionError "update")), w)
  /\ Delete ToLower E table [] w =
    (Ok (Some (NoConditionError "delete")), w).
Proof. by split. Qed.

End RuntimeProperties.

Lemma visit_sorted_visits_all (V : Type) (m : gmap string V) :
  visit_sorted V m ≡ₚ map_to_list m.
Proof. reflexivity. Qed.

Lemma visit_reversed_visits_all (V : Type) (m : gmap string V) :
  visit_reversed V m ≡ₚ map_to_list m.
Proof. apply reverse_Permutation. Qed.

Lemma CommitTx_discipline_witness :
  respond engine_failing (CallRollback sample_db) = Some "tx already closed"
  /\ CommitTx engine_failing (Some sample_db) (Ref (Some "insert failed"))
       sample_world =
     (Ok (Some
            "rollback failed: tx already closed, original error: insert failed"),
      mkWorld (GormDBs sample_world) [CallRollback sample_db])
  /\ CommitTx engine_ok (Some sample_db) (Ref (Some "insert failed"))
       sample_world =
     (Ok (Some "insert failed"),
      mkWorld (GormDBs sample_world) [CallRollback sample_db]).
Proof.
  split; [reflexivity|]. split.
  - destruct (CommitTx_discipline engine_failing sample_world)
      as (_ & _ & Hrollback & _).
    destruct (Hrollback sample_db "insert failed")
      as (final & Hrun & Hfail & _).
    destruct (Hfail "tx already closed" eq_refl) as (Hfinal & _).
    rewrite Hrun, Hfinal. reflexivity.
  - destruct (CommitTx_discipline engine_ok sample_world)
      as (_ & _ & Hrollback & _).
    destruct (Hrollback sample_db "insert failed")
      as (final & Hrun & _ & Hkeep).
    rewrite Hrun, (Hkeep eq_refl). reflexivity.
Defined.

Lemma sample_config_required_fields : required_fields sample_config.
Proof. repeat split; discriminate. Qed.

Lemma configure_single_witness :
  required_fields sample_config
  /\ exists w',
       InitDBWithMap visit_sorted engine_ok {[ "main" := sample_config ]}
         sample_world = (Ok None, w')
       /\ GormDBs w' !! "main" = Some (Some (mkDB 7 "" []))
       /\ GormDBs w' !! Mysql = GormDBs sample_world !! Mysql.
Proof.
  split; [exact sample_config_required_fields|].
  pose proof (configure_single visit_sorted visit_sorted_visits_all engine_ok
                "main" sample_config sample_world) as H.
  cbv zeta in H. destruct H as (Hok & _ & _).
  eexists. split.
  - apply Hok; [exact sample_config_required_fields|reflexivity..].
  - split; vm_compute; reflexivity.
Defined.

Lemma CloseAllDBs_spec_witness :
  CloseAllDBs visit_sorted engine_failing crowded_world =
    (Ok (Some "failed to get sql.DB for audit: no pool"),
     mkWorld ∅ [CallDB 2; CallClose 2; CallDB 3; CallClose 3; CallDB 4])
  /\ CloseAllDBs visit_reversed engine_failing crowded_world =
    (Ok (Some "failed to close orders database: busy"),
     mkWorld ∅ [CallDB 4; CallDB 3; CallClose 3; CallDB 2; CallClose 2]).
Proof.
  split.
  - pose proof (CloseAllDBs_spec visit_sorted visit_sorted_visits_all
                  engine_failing crowded_world) as H.
    cbv zeta in H. destruct H as [Hrun _]. rewrite Hrun.
    vm_compute. reflexivity.
  - pose proof (CloseAllDBs_spec visit_reversed visit_reversed_visits_all
                  engine_failing crowded_world) as H.
    cbv zeta in H. destruct H as [Hrun _]. rewrite Hrun.
    vm_compute. reflexivity.
Defined.

Lemma buildDSN_format_witness :
  exists kvs : list (string * string),
    kvs ≡ₚ [("charset", "latin1"); ("loc", "Local"); ("timeout", "5s");
            ("parseTime", "True")]
    /\ buildDSN visit_reversed "db.local" "3306" "app" "secret" "shop"
         (Options sample_config) =
       "app:secret@tcp(db.local:3306)/shop" +:+ "?" +:+
       Join (map query_param kvs) "&".
Proof.
  pose proof (buildDSN_format visit_reversed visit_reversed_visits_all
                "db.local" "3306" "app" "secret" "shop"
                (Options sample_config)) as H.
  cbv zeta in H. destruct H as (_ & kvs & Hperm & Hdsn).
  exists kvs. split; [exact Hperm|exact Hdsn].
Defined.

(** C3, as stated, fails: all four required fields are present, yet the
    engine refuses the connection, [InitDBWithMap] returns a
    [ConnectError] and nothing is registered under the name. *)
Lemma configure_refused_by_engine :
  required_fields sample_config
  /\ (InitDBWithMap visit_sorted engine_refusing {[ "main" := sample_config ]}
        sample_world).1 =
     Ok (Some (ConnectError "main" "dial tcp: connection refused"))
  /\ GormDBs (InitDBWithMap visit_sorted engine_refusing
                {[ "main" := sample_config ]} sample_world).2 !! "main" = None.
Proof.
  split; [exact sample_config_required_fields|].
  split; vm_compute; reflexivity.
Qed.

(** With several entries the outcome depends on the visiting order: the
    same map fails with the same [ConfigError] either way, but when the
    valid entry is visited first it stays registered. *)
Lemma InitDBWithMap_partial_registration :
  (InitDBWithMap visit_sorted engine_ok mixed_configs (mkWorld ∅ [])).1 =
    Ok (Some (ConfigError "replica"))
  /\ GormDBs (InitDBWithMap visit_sorted engine_ok mixed_configs
                (mkWorld ∅ [])).2 !! "main" = Some (Some (mkDB 7 "" []))
  /\ (InitDBWithMap visit_reversed engine_ok mixed_configs (mkWorld ∅ [])).1 =
    Ok (Some (ConfigError "replica"))
  /\ GormDBs (InitDBWithMap visit_reversed engine_ok mixed_configs
                (mkWorld ∅ [])).2 !! "main" = None.
Proof. repeat split; vm_compute; reflexivity. Qed.

(** C4, as stated, fails: with a nil transaction [QueryTx] returns a nil
    builder and no error, and [DeleteTx] returns the error of the
    missing-condition guard, which is not [NilTransactionError]. *)
Lemma nil_transaction_not_uniform :
  QueryTx ToLower_ascii None "users" [W "id" (VInt 1) []] sample_world =
    (Ok None, sample_world)
  /\ DeleteTx ToLower_ascii engine_ok None "users" [W "id" (VInt 1) []]
       sample_world =
     (Ok (Some (NoConditionError "delete")), sample_world)
  /\ NoConditionError "delete" <> NilTransactionError.
Proof. repeat split; try (vm_compute; reflexivity). discriminate. Qed.

(** C7, as stated, fails: a call whose only condition group is empty
    carries zero conditions, passes the guard and reaches the engine with
    a query that has no predicate; what comes back is the engine's answer,
    not [NoConditionError]. *)
Lemma mutation_with_empty_group :
  concat [[] : list (list value)] = []
  /\ Update ToLower_ascii engine_strict "users"
       (VStruct [("name", VStr "bob")]) [[]] sample_world =
     (Ok (Some "WHERE conditions required"),
      mkWorld (GormDBs sample_world)
        [CallUpdates (mkDB 1 "users" []) (VStruct [("name", VStr "bob")])])
  /\ Delete ToLower_ascii engine_strict "users" [[]] sample_world =
     (Ok (Some "WHERE conditions required"),
      mkWorld (GormDBs sample_world) [CallDelete (mkDB 1 "users" [])])
  /\ "WHERE conditions required" <> NoConditionError "update"
  /\ "WHERE conditions required" <> NoConditionError "delete".
Proof. repeat split; try (vm_compute; reflexivity); discriminate. Qed.

(** ** Further properties of the translator *)

Lemma string_length_app (a b : string) :
  String.length (a +:+ b) = String.length a + String.length b.
Proof.
  induction a as [|x a IH]; [done|].
  change (S (String.length (a +:+ b)) = S (String.length a + String.length b)).
  by rewrite IH.
Qed.

Lemma append_neq_self (a b : string) : b <> "" -> a +:+ b <> a.
Proof.
  intros Hb Heq. apply (f_equal String.length) in Heq.
  rewrite string_length_app in Heq. destruct b; [done|]. simpl in Heq. lia.
Qed.

Lemma Ok_inj {A : Type} (a b : A) : Ok a = Ok b -> a = b.
Proof. by intros [= ->]. Qed.

Lemma Where_inj_text (q : DB) (t1 t2 : string) (a1 a2 : list value) :
  Where q t1 a1 = Where q t2 a2 -> t1 = t2 /\ a1 = a2.
Proof.
  intros Heq. apply (f_equal db_where) in Heq. simpl in Heq.
  apply app_inv_head in Heq. by simplify_eq.
Qed.

Lemma Where_neq_self (q : DB) (t : string) (a : list value) : Where q t a <> q.
Proof.
  intros Heq. apply (f_equal (fun q => length (db_where q))) in Heq.
  simpl in Heq. rewrite length_app in Heq. simpl in Heq. lia.
Qed.

Section TranslatorFurther.

Variable ToLower : string -> string.

(** One condition leaves the query as it is or adds one predicate. *)
Lemma applyCondition_step (query query' : DB) (arg : list value) :
  applyCondition ToLower query arg = Ok query' ->
  query' = query \/ exists c, query' = Where query (sql c) (vars c).
Proof.
  intros Hrun.
  destruct arg as [|a0 [|a1 [|a2 [|a3 rest]]]]; [discriminate|..];
    destruct a0 as [| | |field| | | | | |]; try discriminate.
  - injection Hrun as <-. right. by eexists (Clause _ _).
  - injection Hrun as <-. right. by eexists (Clause _ _).
  - unfold applyCondition in Hrun; simpl in Hrun.
    destruct (as_string a1) as [operator|]; simpl in Hrun;
      [|injection Hrun as <-; by left].
    repeat case_match; simplify_eq; try (by left);
      try (right; by eexists (Clause _ _)).
    match goal with
    | Hlen : length ?l = 2 |- _ =>
        destruct l as [|s0 [|s1 [|s2 l]]]; simpl in *; try lia
    end.
    injection Hrun as <-. right. by eexists (Clause _ _).
  - injection Hrun as <-. right. by eexists (Clause _ _).
Qed.

(** A three-element condition, when it adds a predicate, adds one whose
    text extends the field by a space and more. *)
Lemma applyCondition_triple (query query' : DB) (field : string)
    (a1 a2 : value) :
  applyCondition ToLower query [VStr field; a1; a2] = Ok query' ->
  query' = query \/
  exists rest args, query' = Where query (field +:+ " " +:+ rest) args.
Proof.
  intros Hrun. unfold applyCondition in Hrun; simpl in Hrun.
  destruct (as_string a1) as [operator|]; simpl in Hrun;
    [|injection Hrun as <-; by left].
  repeat case_match; simplify_eq; try (by left); try (right; by eauto).
  match goal with
  | Hlen : length ?l = 2 |- _ =>
      destruct l as [|s0 [|s1 [|s2 l]]]; simpl in *; try lia
  end.
  injection Hrun as <-. right. by eauto.
Qed.

(** X1. A condition whose first element is a string is passed on as raw
    SQL with all its remaining elements as parameters exactly when it has
    neither one nor two remaining elements: with one it becomes an
    equality on the text, with two it is read as field, operator and
    value. *)
Theorem raw_escape_arity (query : DB) (text : string) (params : list value) :
  applyCondition ToLower query (VStr text :: params) =
    Ok (Where query text params)
  <-> length params <> 1 /\ length params <> 2.
Proof.
  split.
  - intros Hrun. split; intros Hlen.
    + destruct params as [|a1 [|]]; try discriminate.
      apply Ok_inj, Where_inj_text in Hrun as [Htext _].
      by apply append_neq_self in Htext.
    + destruct params as [|a1 [|a2 [|]]]; try discriminate.
      apply applyCondition_triple in Hrun as [Hrun | (rest & args & Hrun)].
      * by apply Where_neq_self in Hrun.
      * symmetry in Hrun. apply Where_inj_text in Hrun as [Htext _].
        by apply append_neq_self in Htext.
  - intros [H1 H2].
    destruct params as [|a1 [|a2 [|a3 params]]]; simpl in *; try lia;
      reflexivity.
Qed.

Lemma foldM_step_invariant {A B : Type} (f : A -> B -> result A)
    (R : A -> A -> nat -> Prop) :
  (forall a, R a a 0) ->
  (forall a b a' a'' n, f a b = Ok a' -> R a' a'' n -> R a a'' (S n)) ->
  forall l a a', foldM f a l = Ok a' -> R a a' (length l).
Proof.
  intros Hrefl Hstep l. induction l as [|b l IH]; intros a a' Hrun; simpl in *.
  - injection Hrun as <-. apply Hrefl.
  - destruct (f a b) as [a1|] eqn:Hf; simpl in Hrun; [|discriminate].
    eapply Hstep; eauto.
Qed.

(** X2. A translation that goes through keeps the connection and the
    table of the query, keeps the predicates the query already had in
    place, and adds at most one predicate per condition. *)
Theorem translator_only_appends (query query' : DB)
    (args : list (list (list value))) :
  applyGormWhere ToLower query args = Ok query' ->
  db_conn query' = db_conn query
  /\ db_table query' = db_table query
  /\ exists added : list clause,
       db_where query' = db_where query ++ added
       /\ length added <= length (concat args).
Proof.
  rewrite applyGormWhere_concat. intros Hrun.
  apply (foldM_step_invariant (applyCondition ToLower)
           (fun q q' n =>
              db_conn q' = db_conn q /\ db_table q' = db_table q /\
              exists added, db_where q' = db_where q ++ added
                            /\ length added <= n)) in Hrun; [done|..].
  - intros q. repeat split. exists []. by rewrite app_nil_r.
  - intros q arg q1 q2 n Hstep (Hc & Ht & added & Hw & Hn).
    apply applyCondition_step in Hstep as [-> | [c ->]].
    + repeat split; [done..|]. exists added. split; [done|lia].
    + simpl in *. repeat split; [done..|].
      exists (Clause (sql c) (vars c) :: added).
      rewrite Hw, <- app_assoc. split; [done|simpl; lia].
Qed.

(** X3. A three-element condition whose lower-cased operator is a
    comparison or [like]/[not like] adds [field <op> ?] bound to the
    value; with [in]/[not in] it adds [field <op> (?)] bound to the value
    as a whole. The operator is emitted in lower case. *)
Theorem comparison_condition (query : DB) (field op : string) (v : value) :
  (ToLower op ∈ scalar_operators ->
   applyCondition ToLower query [VStr field; VStr op; v] =
   Ok (Where query (field +:+ " " +:+ ToLower op +:+ " ?") [v]))
  /\ (ToLower op ∈ ["in"; "not in"] ->
      applyCondition ToLower query [VStr field; VStr op; v] =
      Ok (Where query (field +:+ " " +:+ ToLower op +:+ " (?)") [v])).
Proof.
  unfold applyCondition, scalar_operators; simpl. split; intros Hop;
    repeat (apply elem_of_cons in Hop as [Hop | Hop];
            [rewrite Hop; reflexivity|]);
    by apply elem_of_nil in Hop.
Qed.

(** X4. A three-element condition whose second element is not a string,
    or is a string outside the thirteen known operators after
    lower-casing, adds nothing: the query comes back unchanged and
    nothing fails. *)
Theorem unrecognised_operator_dropped (query : DB) (field : string)
    (a1 v : value) :
  (forall op, a1 = VStr op -> ToLower op ∉ known_operators) ->
  applyCondition ToLower query [VStr field; a1; v] = Ok query.
Proof.
  intros Hop. unfold applyCondition; simpl.
  destruct a1 as [| | |op| | | | | |]; try reflexivity. simpl.
  specialize (Hop op eq_refl).
  unfold case_of.
  rewrite !bool_decide_eq_false_2; [done|..];
    intros Hin; apply Hop; apply list_elem_of_In in Hin;
    apply list_elem_of_In; simpl in *; tauto.
Qed.

(** X5. Only the sequence of conditions matters, not how it is split
    into groups, and translating two argument lists one after the other
    is translating their concatenation. *)
Theorem groups_are_flattened (query : DB)
    (args1 args2 : list (list (list value))) :
  (concat args1 = concat args2 ->
   applyGormWhere ToLower query args1 = applyGormWhere ToLower query args2)
  /\ applyGormWhere ToLower query (args1 ++ args2) =
     (query' ← applyGormWhere ToLower query args1;
      applyGormWhere ToLower query' args2).
Proof.
  split.
  - intros Heq. by rewrite !applyGormWhere_concat, Heq.
  - unfold applyGormWhere. apply foldM_app.
Qed.

(** X6. Groups built by [W] never make the translator panic, and
    [W(field, value)] translates to the equality [field = ?] bound to the
    value. *)
Theorem W_groups_translate (query : DB)
    (specs : list (string * value * list value)) :
  (exists query',
     applyGormWhere ToLower query (map (fun s => W s.1.1 s.1.2 s.2) specs) =
     Ok query')
  /\ (forall field v,
        applyGormWhere ToLower query [W field v []] =
        Ok (Where query (field +:+ " = ?") [v])).
Proof.
  split; [|reflexivity].
  rewrite applyGormWhere_concat.
  apply (foldM_ok_iff (applyCondition ToLower)
           (fun arg => exists s rest, arg = VStr s :: rest)).
  - intros q arg. split.
    + intros [q' Hq]. destruct arg as [|a0 rest]; [discriminate|].
      destruct (is_string a0) eqn:Ha0.
      * destruct a0 as [| | |s| | | | | |]; try discriminate. by exists s, rest.
      * rewrite applyCondition_not_string in Hq by done. discriminate.
    + intros (s & rest & ->). apply applyCondition_string_first.
  - induction specs as [|[[s a] w] specs IH]; simpl; [constructor|].
    constructor; [by eexists _, _|exact IH].
Qed.

End TranslatorFurther.

(** ** Further properties of the registry *)

Lemma foldl_insert_lookup {V W : Type} (g : V -> W)
    (entries : list (string * V)) (m0 : gmap string W) (name : string) :
  NoDup entries.*1 ->
  foldl (fun m e => <[e.1 := g e.2]> m) m0 entries !! name =
  match (list_to_map entries : gmap string V) !! name with
  | Some v => Some (g v)
  | None => m0 !! name
  end.
Proof.
  revert m0. induction entries as [|[k v] entries IH]; intros m0 Hnd; simpl.
  - by rewrite lookup_empty.
  - apply NoDup_cons in Hnd as [Hk Hnd]. rewrite IH by done.
    destruct (decide (name = k)) as [->|Hne].
    + rewrite (not_elem_of_list_to_map_1 _ k) by done.
      by rewrite !lookup_insert_eq.
    + by rewrite !lookup_insert_ne.
Qed.

Section RegistryFurther.

Variable range : forall V : Type, gmap string V -> list (string * V).
Hypothesis range_visits_all :
  forall (V : Type) (m : gmap string V), range V m ≡ₚ map_to_list m.
Variable E : Engine.

Lemma required_fields_decide (config : DBConfig) :
  bool_decide (Host config = "") || bool_decide (Port config = "")
  || bool_decide (User config = "") || bool_decide (DBName config = "")
  = false <-> required_fields config.
Proof.
  unfold required_fields. rewrite !orb_false_iff, !bool_decide_eq_false.
  tauto.
Qed.

(** One round of the loop of [InitDBWithMap], request by request. *)
Lemma InitDBWithMap_loop_unfold (name : string) (config : DBConfig)
    (rest : list (string * DBConfig)) (w : World) :
  let dsn := config_dsn range config in
  let sqlDB := open_conn E dsn in
  InitDBWithMap_loop range E ((name, config) :: rest) w =
  if bool_decide (Host config = "") || bool_decide (Port config = "")
     || bool_decide (User config = "") || bool_decide (DBName config = "")
  then (Ok (Some (ConfigError name)), w)
  else
    match respond E (CallOpen dsn) with
    | Some err =>
        (Ok (Some (ConnectError name err)),
         mkWorld (GormDBs w) (calls w ++ [CallOpen dsn]))
    | None =>
        match respond E (CallDB sqlDB) with
        | Some err =>
            (Ok (Some ("failed to get underlying sql.DB for " +:+ name
                       +:+ ": " +:+ err)),
             mkWorld (GormDBs w) ((calls w ++ [CallOpen dsn]) ++ [CallDB sqlDB]))
        | None =>
            InitDBWithMap_loop range E rest
              (mkWorld (<[name := Some (config_db range E config)]> (GormDBs w))
                 (calls w ++ [CallOpen dsn; CallDB sqlDB]
                  ++ tune_calls (MaxIdleConns config)
                       (CallSetMaxIdleConns sqlDB (MaxIdleConns config))
                  ++ tune_calls (MaxOpenConns config)
                       (CallSetMaxOpenConns sqlDB (MaxOpenConns config))
                  ++ tune_calls (MaxLifetime config)
                       (CallSetConnMaxLifetime sqlDB (MaxLifetime config))
                  ++ tune_calls (MaxIdleTime config)
                       (CallSetConnMaxIdleTime sqlDB (MaxIdleTime config))))
        end
    end.
Proof.
  intros dsn sqlDB. cbn [InitDBWithMap_loop].
  fold (config_dsn range config). fold dsn.
  destruct (bool_decide (Host config = "") || bool_decide (Port config = "")
            || bool_decide (User config = "") || bool_decide (DBName config = ""));
    [done|].
  unfold mbind at 1, M_bind at 1. unfold engine at 1.
  destruct (respond E (CallOpen dsn)) as [err|]; [done|].
  unfold mbind at 1, M_bind at 1. unfold engine at 1.
  cbn [db_conn GormDBs calls]. fold sqlDB.
  destruct (respond E (CallDB sqlDB)) as [err|]; [done|].
  do 4 (erewrite bind_run by apply tune_spec).
  run_M. by rewrite <- !app_assoc.
Qed.

(** A complete and accepted entry is registered and the loop goes on; any
    other entry ends the loop with an error and leaves the registry as it
    is. *)
Lemma InitDBWithMap_loop_cons (name : string) (config : DBConfig)
    (rest : list (string * DBConfig)) (w : World) :
  (required_fields config /\ accepted range E config /\
   exists w1,
     GormDBs w1 = <[name := Some (config_db range E config)]> (GormDBs w)
     /\ InitDBWithMap_loop range E ((name, config) :: rest) w =
        InitDBWithMap_loop range E rest w1)
  \/ (~ (required_fields config /\ accepted range E config) /\
      exists err w1,
        GormDBs w1 = GormDBs w
        /\ InitDBWithMap_loop range E ((name, config) :: rest) w =
           (Ok (Some err), w1)).
Proof.
  rewrite InitDBWithMap_loop_unfold. cbv zeta. unfold accepted.
  destruct (bool_decide (Host config = "") || bool_decide (Port config = "")
            || bool_decide (User config = "") || bool_decide (DBName config = ""))
    eqn:Hreq.
  { right. split; [|by eexists _, w].
    intros [Hr _]. apply required_fields_decide in Hr. congruence. }
  apply required_fields_decide in Hreq.
  destruct (respond E (CallOpen (config_dsn range config))) as [err|].
  { right. split; [intros (_ & ? & _); congruence|].
    do 2 eexists. split; last reflexivity. reflexivity. }
  destruct (respond E (CallDB (open_conn E (config_dsn range config))))
    as [err|].
  { right. split; [intros (_ & _ & ?); congruence|].
    do 2 eexists. split; last reflexivity. reflexivity. }
  left. split; [done|]. split; [done|].
  eexists. split; last reflexivity. reflexivity.
Qed.

Lemma InitDBWithMap_loop_run (entries : list (string * DBConfig)) (w : World) :
  exists r w',
    InitDBWithMap_loop range E entries w = (Ok r, w')
    /\ (r = None <->
        Forall (fun e => required_fields e.2 /\ accepted range E e.2) entries)
    /\ (r = None ->
        GormDBs w' =
        foldl (fun m e => <[e.1 := Some (config_db range E e.2)]> m)
              (GormDBs w) entries)
    /\ (forall name, name ∉ entries.*1 ->
                     GormDBs w' !! name = GormDBs w !! name).
Proof.
  revert w. induction entries as [|[name config] rest IH]; intros w.
  - exists None, w. repeat split; auto.
  - destruct (InitDBWithMap_loop_cons name config rest w)
      as [(Hreq & Hacc & w1 & Hw1 & ->) | (Hbad & err & w1 & Hw1 & ->)].
    + destruct (IH w1) as (r & w' & -> & Hiff & Hreg & Hframe).
      exists r, w'. split; [done|]. split; [|split].
      * rewrite Forall_cons, <- Hiff. simpl. tauto.
      * intros Hr. simpl. rewrite <- Hw1. by apply Hreg.
      * intros other Hother. simpl in Hother.
        apply not_elem_of_cons in Hother as [Hne Hother].
        rewrite Hframe, Hw1 by done. by rewrite lookup_insert_ne.
    + exists (Some err), w1. split; [done|]. split; [|split].
      * split; [done|]. intros Hall. apply Forall_cons in Hall as [Hall _].
        by destruct Hbad.
      * done.
      * intros other _. by rewrite Hw1.
Qed.

Lemma range_entries {V : Type} (m : gmap string V) :
  NoDup (range V m).*1
  /\ (list_to_map (range V m) : gmap string V) = m
  /\ (forall P : string * V -> Prop,
        Forall P (range V m) <-> forall k v, m !! k = Some v -> P (k, v)).
Proof.
  split; [|split].
  - rewrite range_visits_all. apply NoDup_fst_map_to_list.
  - rewrite <- (list_to_map_to_list m) at 2. apply list_to_map_proper.
    + rewrite range_visits_all. apply NoDup_fst_map_to_list.
    + apply range_visits_all.
  - intros P. rewrite Forall_forall. split.
    + intros HP k v Hkv. apply HP. rewrite range_visits_all.
      by apply elem_of_map_to_list.
    + intros HP [k v] Hin. apply HP. apply elem_of_map_to_list.
      by rewrite <- range_visits_all.
Qed.

(** X7. [InitDBWithMap] returns no error exactly when every entry of the
    map has its four required fields and is accepted by the engine
    (connection opened, pool exposed), whatever the visiting order. *)
Theorem InitDBWithMap_success_iff (configs : gmap string DBConfig) (w : World) :
  (exists w', InitDBWithMap range E configs w = (Ok None, w'))
  <-> (forall name config,
         configs !! name = Some config ->
         required_fields config /\ accepted range E config).
Proof.
  unfold InitDBWithMap.
  destruct (InitDBWithMap_loop_run (range _ configs) w)
    as (r & w' & Hrun & Hiff & _ & _).
  rewrite Hrun.
  destruct (range_entries configs) as (_ & _ & Hall).
  rewrite (Hall (fun e => required_fields e.2 /\ accepted range E e.2)) in Hiff.
  simpl in Hiff. rewrite <- Hiff. split.
  - intros [w'' Heq]. congruence.
  - intros ->. by exists w'.
Qed.

(** X8. After a successful [InitDBWithMap], every configured name is
    bound to the connection opened for it, replacing what was registered
    under that name, and every other name is bound as before. *)
Theorem InitDBWithMap_registers (configs : gmap string DBConfig)
    (w w' : World) (name : string) :
  InitDBWithMap range E configs w = (Ok None, w') ->
  GormDBs w' !! name =
  match configs !! name with
  | Some config => Some (Some (config_db range E config))
  | None => GormDBs w !! name
  end.
Proof.
  unfold InitDBWithMap. intros Hrun.
  destruct (InitDBWithMap_loop_run (range _ configs) w)
    as (r & w1 & Hrun1 & _ & Hreg & _).
  rewrite Hrun in Hrun1. injection Hrun1 as <- <-.
  destruct (range_entries configs) as (Hnd & Hmap & _).
  rewrite Hreg by done.
  rewrite (foldl_insert_lookup (fun c => Some (config_db range E c))) by done.
  by rewrite Hmap.
Qed.

(** X9. [InitDBWithMap] never panics and, whether it succeeds or fails,
    never changes the registry at a name that is not in the map. *)
Theorem InitDBWithMap_frame (configs : gmap string DBConfig) (w : World) :
  exists r w',
    InitDBWithMap range E configs w = (Ok r, w')
    /\ (forall name, configs !! name = None ->
                     GormDBs w' !! name = GormDBs w !! name).
Proof.
  unfold InitDBWithMap.
  destruct (InitDBWithMap_loop_run (range _ configs) w)
    as (r & w' & Hrun & _ & _ & Hframe).
  exists r, w'. split; [done|]. intros name Hname. apply Hframe.
  rewrite range_visits_all. intros Hin.
  apply list_elem_of_fmap in Hin as ([k v] & -> & Hin).
  apply elem_of_map_to_list in Hin. simpl in Hname. congruence.
Qed.

(** X10. After a successful [InitDBWithMap], [GetDB] of a configured
    name returns its connection, except for the empty name, which
    [GetDB] never finds although it is registered; the name [mysql] is
    what [GetDBDefault] returns. *)
Theorem configure_then_GetDB (configs : gmap string DBConfig) (w w' : World)
    (name : string) (config : DBConfig) :
  InitDBWithMap range E configs w = (Ok None, w') ->
  configs !! name = Some config ->
  GetDB name w' =
    (Ok (if decide (name = "") then None
         else Some (config_db range E config)), w')
  /\ (name = Mysql -> GetDBDefault w' = (Ok (Some (config_db range E config)), w')).
Proof.
  intros Hrun Hname.
  assert (GormDBs w' !! name = Some (Some (config_db range E config))) as Hreg.
  { unfold InitDBWithMap in Hrun.
    destruct (InitDBWithMap_loop_run (range _ configs) w)
      as (r & w1 & Hrun1 & _ & Hreg & _).
    rewrite Hrun in Hrun1. injection Hrun1 as <- <-.
    destruct (range_entries configs) as (Hnd & Hmap & _).
    rewrite Hreg by done.
    rewrite (foldl_insert_lookup (fun c => Some (config_db range E c))) by done.
    by rewrite Hmap, Hname. }
  split.
  - unfold GetDB. destruct (decide (name = "")); [done|].
    run_M. by rewrite Hreg.
  - intros ->. unfold GetDBDefault. run_M. by rewrite Hreg.
Qed.

End RegistryFurther.

(** ** Further properties of closing, transactions and the facade *)

Lemma setTimeFields_no_error (now : Z) (data : value) (c u : bool) :
  (setTimeFields now data c u).2 = None.
Proof.
  destruct data as [| | | | | | | | |target]; try reflexivity.
  destruct target; reflexivity.
Qed.

Lemma map_fmap {A B : Type} (f : A -> B) (l : list A) : map f l = f <$> l.
Proof. induction l as [|x l IH]; simpl; [done|by rewrite IH]. Qed.

Lemma stamp_field_name (c u : bool) (now : Z) (f : string * value) :
  (stamp_field c u now f).1 = f.1.
Proof.
  destruct f as [name v]. unfold stamp_field.
  repeat case_match; reflexivity.
Qed.

Section LifecycleFurther.

Variable ToLower : string -> string.
Variable range : forall V : Type, gmap string V -> list (string * V).
Hypothesis range_visits_all :
  forall (V : Type) (m : gmap string V), range V m ≡ₚ map_to_list m.
Variable now : Z.
Variable E : Engine.
Variable Begin : DB -> DB * option error.

Lemma range_empty {V : Type} : range V ∅ = [].
Proof.
  apply Permutation_nil_r. rewrite range_visits_all.
  by rewrite map_to_list_empty.
Qed.

Lemma GetDBDefault_missing (w : World) :
  GormDBs w !! Mysql = None \/ GormDBs w !! Mysql = Some None ->
  GetDBDefault w = (Ok None, w).
Proof. intros [H | H]; unfold GetDBDefault; run_M; by rewrite H. Qed.

Lemma CloseAllDBs_empties (w : World) :
  exists r requests, CloseAllDBs range E w = (Ok r, mkWorld ∅ requests).
Proof.
  unfold CloseAllDBs. run_M. rewrite CloseAllDBs_loop_spec. simpl.
  by eexists _, _.
Qed.

Lemma GetDBDefault_registered (w : World) (db : DB) :
  GormDBs w !! Mysql = Some (Some db) -> GetDBDefault w = (Ok (Some db), w).
Proof. intros H. unfold GetDBDefault. run_M. by rewrite H. Qed.

(** X12. After [CloseAllDBs], whatever it returned: [GetDB] finds no
    name, [GetDBDefault] returns nil, a second [CloseAllDBs] returns no
    error and makes no request, and [Query] panics on the nil default
    connection. *)
Theorem CloseAllDBs_aftermath (w : World) :
  exists r w',
    CloseAllDBs range E w = (Ok r, w')
    /\ (forall name, GetDB name w' = (Ok None, w'))
    /\ GetDBDefault w' = (Ok None, w')
    /\ CloseAllDBs range E w' = (Ok None, w')
    /\ (forall table args,
          Query ToLower table args w' = (Panic NilDereference, w')).
Proof.
  destruct (CloseAllDBs_empties w) as (r & requests & Hrun).
  exists r, (mkWorld ∅ requests). split; [exact Hrun|].
  set (w' := mkWorld ∅ requests).
  assert (GetDBDefault w' = (Ok None, w')) as Hdefault.
  { apply GetDBDefault_missing. left. apply lookup_empty. }
  split; [|split; [|split]].
  - intros name. unfold GetDB. destruct (decide (name = "")); [done|].
    run_M. by rewrite lookup_empty.
  - exact Hdefault.
  - unfold CloseAllDBs. run_M. by rewrite range_empty.
  - intros table args. unfold Query.
    erewrite bind_run by exact Hdefault. reflexivity.
Qed.

(** X13. [buildDSN] does not escape its fields: moving a colon-separated
    part between user and password, or between host and port, gives the
    same connection string. *)
Theorem buildDSN_no_escaping (host port user password dbname a b : string)
    (options : gmap string string) :
  buildDSN range host port (user +:+ ":" +:+ a) b dbname options =
  buildDSN range host port user (a +:+ ":" +:+ b) dbname options
  /\ buildDSN range (host +:+ ":" +:+ a) b user password dbname options =
     buildDSN range host (a +:+ ":" +:+ b) user password dbname options.
Proof.
  unfold buildDSN. split; simpl; by rewrite !append_assoc.
Qed.

(** X14. [CommitTx] with a non-nil error pointer never panics, leaves the
    registry alone and makes at most one request, none without a
    transaction. An error present at entry is never cleared, and the
    error is nil on return exactly when it was nil at entry, there was a
    transaction, and its commit succeeded. *)
Theorem CommitTx_outcome (tx : option DB) (e : option error) (w : World) :
  exists final requests,
    CommitTx E tx (Ref e) w =
      (Ok final, mkWorld (GormDBs w) (calls w ++ requests))
    /\ length requests <= 1
    /\ (tx = None -> requests = [])
    /\ (is_Some e -> is_Some final)
    /\ (final = None <->
        e = None /\ exists t, tx = Some t /\ respond E (CallCommit t) = None).
Proof.
  destruct tx as [t|], e as [e|]; unfold CommitTx; run_M.
  - exists (Some (match respond E (CallRollback t) with
                  | Some r => "rollback failed: " +:+ r +:+
                              ", original error: " +:+ e
                  | None => e
                  end)), [CallRollback t].
    split; [by destruct (respond E (CallRollback t))|].
    split; [simpl; lia|]. split; [done|]. split; [by eauto|].
    split; [done|]. by intros (? & _).
  - exists (match respond E (CallCommit t) with
            | Some c => Some ("commit failed: " +:+ c)
            | None => None
            end), [CallCommit t].
    split; [by destruct (respond E (CallCommit t))|].
    split; [simpl; lia|]. split; [done|]. split; [by intros []|].
    split.
    + intros Hfinal. split; [done|]. exists t. split; [done|].
      by destruct (respond E (CallCommit t)).
    + intros (_ & t' & [= <-] & ->). done.
  - exists (Some e), []. rewrite app_nil_r.
    split; [by destruct w|]. split; [simpl; lia|]. split; [done|].
    split; [by eauto|]. split; [done|]. by intros (? & _).
  - exists (Some NilTransactionError), []. rewrite app_nil_r.
    split; [by destruct w|]. split; [simpl; lia|]. split; [done|].
    split; [by intros []|]. split; [done|]. by intros (_ & t & ? & _).
Qed.

(** X15. [BeginTx] begins a transaction on the connection registered
    under a non-empty name and hands back the handle together with its
    error; for the empty name, an unknown name or a nil entry it returns
    no handle and the error [database <name> not found]. *)
Theorem BeginTx_lookup (name : string) (w : World) :
  (forall db, name <> "" -> GormDBs w !! name = Some (Some db) ->
     BeginTx Begin name w = (Ok (Some (Begin db).1, (Begin db).2), w))
  /\ (name = "" \/ GormDBs w !! name = None \/ GormDBs w !! name = Some None ->
      BeginTx Begin name w =
        (Ok (None, Some ("database " +:+ name +:+ " not found")), w)).
Proof.
  unfold BeginTx, GetDB. split.
  - intros db Hne Hdb. destruct (decide (name = "")); [done|].
    run_M. by rewrite Hdb.
  - intros [-> | H]; [done|].
    destruct (decide (name = "")); [done|].
    run_M. by destruct H as [-> | ->].
Qed.

(** X16. [BeginTx] followed by [CommitTx] on its two results: when the
    name is not found the not-found error survives and no request is
    made; when the begin itself failed, [CommitTx] rolls the returned
    handle back and the final error still holds the begin error. *)
Theorem BeginTx_then_CommitTx (name : string) (w : World) :
  (name = "" \/ GormDBs w !! name = None \/ GormDBs w !! name = Some None ->
   (r ← BeginTx Begin name; CommitTx E r.1 (Ref r.2)) w =
     (Ok (Some ("database " +:+ name +:+ " not found")), w))
  /\ (forall db e,
        name <> "" -> GormDBs w !! name = Some (Some db) ->
        (Begin db).2 = Some e ->
        exists final,
          (r ← BeginTx Begin name; CommitTx E r.1 (Ref r.2)) w =
            (Ok (Some final),
             mkWorld (GormDBs w) (calls w ++ [CallRollback (Begin db).1]))
          /\ contains final e).
Proof.
  split.
  - intros Hmiss.
    assert (BeginTx Begin name w =
            (Ok (None, Some ("database " +:+ name +:+ " not found")), w))
      as Hbegin.
    { unfold BeginTx, GetDB. destruct Hmiss as [-> | H]; [done|].
      destruct (decide (name = "")); [done|].
      run_M. by destruct H as [-> | ->]. }
    erewrite bind_run by exact Hbegin. reflexivity.
  - intros db e Hne Hdb He.
    assert (BeginTx Begin name w = (Ok (Some (Begin db).1, (Begin db).2), w))
      as Hbegin.
    { unfold BeginTx, GetDB. destruct (decide (name = "")); [done|].
      run_M. by rewrite Hdb. }
    erewrite bind_run by exact Hbegin. cbn [fst snd]. rewrite He.
    unfold CommitTx. run_M.
    destruct (respond E (CallRollback (Begin db).1)) as [r|].
    + eexists. split; [reflexivity|].
      rewrite <- !append_assoc. apply contains_suffix.
    + eexists. split; [reflexivity|]. exists "", "". by rewrite append_nil_r.
Qed.

(** X17. Without a usable default connection (none registered, or a nil
    entry), [Query], [Insert], [InsertStruct], [InsertBatch], and
    [Update] and [Delete] with at least one group, panic on the nil
    connection instead of returning an error; nothing is requested from
    the engine. *)
Theorem facade_without_default_connection (w : World) (table : string)
    (data : value) (rows : list value) (args : list (list (list value))) :
  GormDBs w !! Mysql = None \/ GormDBs w !! Mysql = Some None ->
  Query ToLower table args w = (Panic NilDereference, w)
  /\ Insert E table data w = (Panic NilDereference, w)
  /\ InsertStruct now E table data w = (Panic NilDereference, w)
  /\ InsertBatch E table rows w = (Panic NilDereference, w)
  /\ (args <> [] ->
      Update ToLower E table data args w = (Panic NilDereference, w)
      /\ Delete ToLower E table args w = (Panic NilDereference, w)).
Proof.
  intros Hmiss. apply GetDBDefault_missing in Hmiss.
  assert (Query ToLower table args w = (Panic NilDereference, w)) as HQ.
  { unfold Query. erewrite bind_run by exact Hmiss. reflexivity. }
  repeat split.
  - done.
  - unfold Insert. erewrite bind_run by exact Hmiss. reflexivity.
  - unfold InsertStruct.
    pose proof (setTimeFields_no_error now data true true) as Herr.
    destruct (setTimeFields now data true true) as [data' err].
    simpl in Herr. subst err.
    erewrite bind_run by exact Hmiss. reflexivity.
  - unfold InsertBatch. erewrite bind_run by exact Hmiss. reflexivity.
  - unfold Update. destruct args; [done|].
    destruct (decide _) as [Hlen|_]; [done|].
    unfold mbind, M_bind. by rewrite HQ.
  - unfold Delete. destruct args; [done|].
    destruct (decide _) as [Hlen|_]; [done|].
    unfold mbind, M_bind. by rewrite HQ.
Qed.

(** X18. With a default connection registered, each facade operation
    behaves as its transaction-bound variant called on that
    connection. *)
Theorem default_connection_variants (w : World) (db : DB) (table : string)
    (data : value) (rows : list value) (args : list (list (list value))) :
  GormDBs w !! Mysql = Some (Some db) ->
  Insert E table data w = InsertTx E (Some db) table data w
  /\ InsertStruct now E table data w = InsertStructTx now E (Some db) table data w
  /\ InsertBatch E table rows w = InsertBatchTx E (Some db) table rows w
  /\ Update ToLower E table data args w =
     UpdateTx ToLower E (Some db) table data args w
  /\ Delete ToLower E table args w = DeleteTx ToLower E (Some db) table args w
  /\ (query ← Query ToLower table args; mret (Some query)) w =
     QueryTx ToLower (Some db) table args w.
Proof.
  intros Hdb.
  assert (GetDBDefault w = (Ok (Some db), w)) as Hdefault.
  { unfold GetDBDefault. run_M. by rewrite Hdb. }
  assert (forall (B : Type) (k : DB -> M B),
            (query ← Query ToLower table args; k query) w =
            (query ← QueryTx ToLower (Some db) table args;
             query ← receiver query; k query) w) as HQ.
  { intros B k. unfold Query, QueryTx, GetDBDefault, Table, receiver.
    run_M. rewrite Hdb. simpl.
    by destruct (applyGormWhere _ _ _). }
  repeat split.
  - unfold Insert, InsertTx. by erewrite bind_run by exact Hdefault.
  - unfold InsertStruct, InsertStructTx.
    destruct (setTimeFields now data true true) as [data' [err|]]; [done|].
    by erewrite bind_run by exact Hdefault.
  - unfold InsertBatch, InsertBatchTx. by erewrite bind_run by exact Hdefault.
  - unfold Update, UpdateTx. destruct (decide _); [done|]. apply HQ.
  - unfold Delete, DeleteTx. destruct (decide _); [done|]. apply HQ.
  - unfold Query, QueryTx, GetDBDefault, Table, receiver.
    run_M. rewrite Hdb. simpl.
    by destruct (applyGormWhere _ _ _).
Qed.

(** X11. After a successful [InitGormDB], [GetDBDefault] returns the
    opened connection and [Query] translates the conditions on a builder
    for that connection and the given table, starting without
    predicates. *)
Theorem InitGormDB_then_Query (config : DBConfig) (w w' : World)
    (table : string) (args : list (list (list value))) :
  InitGormDB range E config w = (Ok None, w') ->
  GetDBDefault w' = (Ok (Some (config_db range E config)), w')
  /\ Query ToLower table args w' =
     (applyGormWhere ToLower
        (mkDB (open_conn E (config_dsn range config)) table []) args, w').
Proof.
  unfold InitGormDB, InitDBWithMap. rewrite range_singleton by done.
  rewrite InitDBWithMap_loop_unfold. cbv zeta.
  destruct (_ || _); [discriminate|].
  destruct (respond E (CallOpen _)); [discriminate|].
  destruct (respond E (CallDB _)); [discriminate|].
  cbn [InitDBWithMap_loop]. intros [= <-].
  match goal with
  | |- GetDBDefault ?w1 = _ /\ _ =>
      assert (GetDBDefault w1 = (Ok (Some (config_db range E config)), w1))
        as Hdefault
        by (apply GetDBDefault_registered; apply lookup_insert_eq)
  end.
  split; [exact Hdefault|].
  unfold Query. erewrite bind_run by exact Hdefault. reflexivity.
Qed.

(** X19. When the translation of the conditions panics, [Update],
    [Delete], [UpdateTx] and [DeleteTx] panic with it before any request
    is made: the state is unchanged. *)
Theorem mutation_not_reached_on_panic (w : World) (db : DB) (table : string)
    (data : value) (args : list (list (list value))) (p : panic) :
  applyGormWhere ToLower (mkDB (db_conn db) table (db_where db)) args = Panic p ->
  (GormDBs w !! Mysql = Some (Some db) ->
   Update ToLower E table data args w = (Panic p, w)
   /\ Delete ToLower E table args w = (Panic p, w))
  /\ UpdateTx ToLower E (Some db) table data args w = (Panic p, w)
  /\ DeleteTx ToLower E (Some db) table args w = (Panic p, w).
Proof.
  intros Hpanic.
  assert (args <> []) as Hargs by (intros ->; discriminate).
  assert (length args <> 0) as Hlen by (by destruct args).
  split; [intros Hdb; split|split].
  - unfold Update, Query, GetDBDefault, Table, receiver.
    destruct (decide _); [done|]. run_M. rewrite Hdb. simpl.
    by rewrite Hpanic.
  - unfold Delete, Query, GetDBDefault, Table, receiver.
    destruct (decide _); [done|]. run_M. rewrite Hdb. simpl.
    by rewrite Hpanic.
  - unfold UpdateTx, QueryTx, Table, receiver.
    destruct (decide _); [done|]. run_M. by rewrite Hpanic.
  - unfold DeleteTx, QueryTx, Table, receiver.
    destruct (decide _); [done|]. run_M. by rewrite Hpanic.
Qed.

End LifecycleFurther.

Section StampingFurther.

Variable now : Z.
Variable E : Engine.

(** X20. On a pointer to a struct, [setTimeFields] returns no error,
    keeps the fields and their names, sets every time field named
    [CreateTime], [CreatedAt], [UpdateTime] or [UpdatedAt] to the current
    time and leaves every other field as it is; a second call at the
    same time changes nothing. *)
Theorem setTimeFields_stamps (fields : list (string * value)) :
  exists fields',
    setTimeFields now (VPtr (VStruct fields)) true true =
      (VPtr (VStruct fields'), None)
    /\ fields'.*1 = fields.*1
    /\ (forall i name v,
          fields !! i = Some (name, v) ->
          fields' !! i =
          Some (name,
                if is_time v && bool_decide (name ∈ stamp_names)
                then VTime now else v))
    /\ setTimeFields now (VPtr (VStruct fields')) true true =
         (VPtr (VStruct fields'), None).
Proof.
  assert (forall f : string * value,
            stamp_field true true now f =
            (f.1, if is_time f.2 && bool_decide (f.1 ∈ stamp_names)
                  then VTime now else f.2)) as Hstamp.
  { intros [name v]. unfold stamp_field, case_of, stamp_names. simpl.
    destruct (is_time v); [|done]. simpl.
    repeat case_bool_decide; try done; exfalso;
      repeat match goal with
             | H : _ ∈ _ |- _ => apply list_elem_of_In in H; simpl in H
             | H : ¬ _ ∈ _ |- _ => rewrite list_elem_of_In in H; simpl in H
             end; tauto. }
  exists (stamp_field true true now <$> fields).
  split; [simpl; by rewrite map_fmap|].
  split; [|split].
  - rewrite <- list_fmap_compose. apply list_fmap_ext.
    intros i f _. apply stamp_field_name.
  - intros i name v Hi. rewrite list_lookup_fmap, Hi.
    cbv [fmap option_fmap option_map]. f_equal. apply (Hstamp (name, v)).
  - simpl. rewrite map_fmap. do 3 f_equal. rewrite <- list_fmap_compose.
    apply list_fmap_ext. intros i f _. cbv [compose]. rewrite !Hstamp.
    cbn [fst snd].
    destruct (is_time f.2) eqn:Ht; simpl; [|by rewrite Ht].
    destruct (bool_decide (f.1 ∈ stamp_names)); simpl; [done|].
    by rewrite Ht.
Qed.

(** X21. [InsertStruct] and [InsertStructTx] are [Insert] and [InsertTx]
    of the stamped data and add no error of their own; data that is not
    a pointer to a struct (nil, a struct passed by value, anything else)
    is inserted unstamped. *)
Theorem InsertStruct_is_Insert_of_stamped (w : World) (table : string)
    (data : value) (tx : option DB) :
  InsertStruct now E table data w =
    Insert E table (setTimeFields now data true true).1 w
  /\ InsertStructTx now E tx table data w =
     InsertTx E tx table (setTimeFields now data true true).1 w
  /\ ((forall fields, data <> VPtr (VStruct fields)) ->
      InsertStruct now E table data w = Insert E table data w).
Proof.
  pose proof (setTimeFields_no_error now data true true) as Herr.
  unfold InsertStruct, InsertStructTx.
  destruct (setTimeFields now data true true) as [data' err] eqn:Hset.
  simpl in Herr. subst err. simpl. split; [done|split].
  - by destruct tx.
  - intros Hshape. replace data' with data; [done|].
    destruct data as [| | | | | | | | |target]; simpl in Hset; try congruence.
    destruct target as [| | | | | | | |fields|]; simpl in Hset;
      first [congruence | by destruct (Hshape fields)].
Qed.

End StampingFurther.

(** ** Instance naming *)

Lemma Index_dot_prefix (pre rest : string) :
  Index_dot pre = (-1)%Z ->
  Index_dot (pre +:+ String dot rest) = Z.of_nat (String.length pre).
Proof.
  induction pre as [|x pre IH]; intros Hpre; [done|].
  change (String x pre +:+ String dot rest) with
    (String x (pre +:+ String dot rest)).
  simpl in *. destruct (Ascii.eqb x dot); [done|].
  destruct (decide (Index_dot pre < 0)%Z) as [Hneg|]; [|lia].
  assert (Index_dot pre = (-1)%Z) as Hm1.
  { clear -Hneg. induction pre as [|y pre IH]; simpl in *; [done|].
    destruct (Ascii.eqb y dot); [lia|].
    destruct (decide (Index_dot pre < 0)%Z); [done|lia]. }
  rewrite (IH Hm1). destruct (decide _); lia.
Qed.

Lemma take_bytes_app (pre rest : string) :
  take_bytes (String.length pre) (pre +:+ rest) = pre.
Proof.
  induction pre as [|x pre IH]; [by destruct rest|].
  change (String x pre +:+ rest) with (String x (pre +:+ rest)).
  simpl. by rewrite IH.
Qed.

(** X22. With a non-empty first server id, [GetSvrMark] is
    [svrName-id] whatever the host. Otherwise it is
    [host-svrName-pid], where a host name whose first dot is not at the
    start is cut one byte before that dot, so the character in front of
    the dot is dropped too; a host name without a dot, or starting with
    one, is used whole. *)
Theorem GetSvrMark_hostname (host : string) (pid : Z) (svrName : string)
    (serVerid : list string) :
  (forall id rest, serVerid = id :: rest -> id <> "" ->
     GetSvrMark host pid svrName serVerid = svrName +:+ "-" +:+ id)
  /\ (serVerid = [] \/ (exists rest, serVerid = "" :: rest) ->
      (forall pre c rest,
         host = pre +:+ String c (String dot rest) ->
         Index_dot (pre +:+ String c "") = (-1)%Z ->
         GetSvrMark host pid svrName serVerid =
         pre +:+ "-" +:+ svrName +:+ "-" +:+ pretty pid)
      /\ (Index_dot host = (-1)%Z \/ Index_dot host = 0%Z ->
          GetSvrMark host pid svrName serVerid =
          host +:+ "-" +:+ svrName +:+ "-" +:+ pretty pid)).
Proof.
  split.
  - intros id rest -> Hid. unfold GetSvrMark.
    destruct (decide (0 < String.length id)) as [|Hlen]; [done|].
    destruct id; [done|simpl in Hlen; lia].
  - intros Hnoid.
    assert (GetSvrMark host pid svrName serVerid =
            (if decide (0 < Index_dot host)%Z
             then take_bytes (Z.to_nat (Index_dot host - 1)) host
             else host) +:+ "-" +:+ svrName +:+ "-" +:+ pretty pid) as ->.
    { unfold GetSvrMark. by destruct Hnoid as [-> | [rest ->]]. }
    split.
    + intros pre c rest -> Hpre.
      replace (pre +:+ String c (String dot rest))
        with ((pre +:+ String c "") +:+ String dot rest)
        by (by rewrite append_assoc).
      rewrite Index_dot_prefix by done.
      rewrite string_length_app. simpl.
      destruct (decide _) as [_|]; [|lia].
      replace (Z.to_nat _) with (String.length pre) by lia.
      by rewrite append_assoc, take_bytes_app.
    + intros [-> | ->]; by destruct (decide _).
Qed.

(** ** The further properties on concrete inputs *)

Lemma translator_only_appends_witness :
  db_conn (Where (Where sample_db "age >= ?" [VInt 18]) "id = ?" [VInt 7]) =
    db_conn sample_db
  /\ db_table (Where (Where sample_db "age >= ?" [VInt 18]) "id = ?" [VInt 7]) =
    db_table sample_db
  /\ exists added : list clause,
       db_where (Where (Where sample_db "age >= ?" [VInt 18]) "id = ?" [VInt 7])
       = db_where sample_db ++ added
       /\ length added <=
          length (concat [W "age" (VStr ">=") [VInt 18];
                          [[VStr "name"; VStr "~"; VStr "x"]];
                          W "id" (VInt 7) []]).
Proof.
  apply (translator_only_appends ToLower_ascii sample_db
           (Where (Where sample_db "age >= ?" [VInt 18]) "id = ?" [VInt 7])
           [W "age" (VStr ">=") [VInt 18];
            [[VStr "name"; VStr "~"; VStr "x"]];
            W "id" (VInt 7) []]).
  reflexivity.
Defined.

Lemma unrecognised_operator_dropped_witness :
  applyCondition ToLower_ascii sample_db
    [VStr "name = ? OR nick = ?"; VStr "bob"; VStr "bobby"] = Ok sample_db
  /\ applyCondition ToLower_ascii sample_db
       [VStr "age"; VInt 1; VInt 2] = Ok sample_db.
Proof.
  split.
  - apply (unrecognised_operator_dropped ToLower_ascii sample_db
             "name = ? OR nick = ?" (VStr "bob") (VStr "bobby")).
    intros op [= <-] Hin. apply list_elem_of_In in Hin. vm_compute in Hin.
    intuition discriminate.
  - apply (unrecognised_operator_dropped ToLower_ascii sample_db
             "age" (VInt 1) (VInt 2)).
    intros op Hop. discriminate.
Defined.

Lemma sample_config_accepted : accepted visit_sorted engine_ok sample_config.
Proof. split; reflexivity. Qed.

Lemma InitDBWithMap_success_iff_witness :
  exists w',
    InitDBWithMap visit_sorted engine_ok {[ "main" := sample_config ]}
      sample_world = (Ok None, w').
Proof.
  apply (InitDBWithMap_success_iff visit_sorted visit_sorted_visits_all
           engine_ok {[ "main" := sample_config ]} sample_world).
  intros name config Hname.
  apply lookup_singleton_Some in Hname as [_ <-].
  split; [exact sample_config_required_fields|exact sample_config_accepted].
Defined.

Lemma InitDBWithMap_registers_witness :
  GormDBs (InitDBWithMap visit_sorted engine_ok {[ Mysql := sample_config ]}
             sample_world).2 !! Mysql =
    Some (Some (mkDB 7 "" []))
  /\ GormDBs (InitDBWithMap visit_sorted engine_ok {[ "main" := sample_config ]}
                sample_world).2 !! Mysql =
    Some (Some sample_db).
Proof.
  split.
  - rewrite (InitDBWithMap_registers visit_sorted visit_sorted_visits_all
               engine_ok {[ Mysql := sample_config ]} sample_world _ Mysql);
      vm_compute; reflexivity.
  - rewrite (InitDBWithMap_registers visit_sorted visit_sorted_visits_all
               engine_ok {[ "main" := sample_config ]} sample_world _ Mysql);
      vm_compute; reflexivity.
Defined.

Lemma InitDBWithMap_frame_witness :
  exists r w',
    InitDBWithMap visit_sorted engine_refusing mixed_configs sample_world =
      (Ok r, w')
    /\ (forall name, mixed_configs !! name = None ->
                     GormDBs w' !! name = GormDBs sample_world !! name).
Proof.
  exact (InitDBWithMap_frame visit_sorted visit_sorted_visits_all
           engine_refusing mixed_configs sample_world).
Defined.

Lemma configure_then_GetDB_witness :
  (GetDB "main"
     (InitDBWithMap visit_sorted engine_ok {[ "main" := sample_config ]}
        empty_world).2).1 = Ok (Some (mkDB 7 "" []))
  /\ (GetDB ""
        (InitDBWithMap visit_sorted engine_ok {[ "" := sample_config ]}
           empty_world).2).1 = Ok None.
Proof.
  split.
  - destruct (configure_then_GetDB visit_sorted visit_sorted_visits_all
                engine_ok {[ "main" := sample_config ]} empty_world
                (InitDBWithMap visit_sorted engine_ok
                   {[ "main" := sample_config ]} empty_world).2
                "main" sample_config) as [Hget _];
      [vm_compute; reflexivity..|].
    rewrite Hget. vm_compute. reflexivity.
  - destruct (configure_then_GetDB visit_sorted visit_sorted_visits_all
                engine_ok {[ "" := sample_config ]} empty_world
                (InitDBWithMap visit_sorted engine_ok
                   {[ "" := sample_config ]} empty_world).2
                "" sample_config) as [Hget _];
      [vm_compute; reflexivity..|].
    rewrite Hget. reflexivity.
Defined.

Lemma InitGormDB_then_Query_witness :
  (Query ToLower_ascii "users" [W "id" (VInt 7) []]
     (InitGormDB visit_sorted engine_ok sample_config empty_world).2).1 =
  Ok (mkDB 7 "users" [Clause "id = ?" [VInt 7]]).
Proof.
  destruct (InitGormDB_then_Query ToLower_ascii visit_sorted
              visit_sorted_visits_all engine_ok sample_config empty_world
              (InitGormDB visit_sorted engine_ok sample_config empty_world).2
              "users" [W "id" (VInt 7) []]) as [_ HQ];
    [vm_compute; reflexivity|].
  rewrite HQ. vm_compute. reflexivity.
Defined.

Lemma CloseAllDBs_aftermath_witness :
  exists r w',
    CloseAllDBs visit_sorted engine_failing crowded_world = (Ok r, w')
    /\ (forall name, GetDB name w' = (Ok None, w'))
    /\ GetDBDefault w' = (Ok None, w')
    /\ CloseAllDBs visit_sorted engine_failing w' = (Ok None, w')
    /\ (forall table args,
          Query ToLower_ascii table args w' = (Panic NilDereference, w')).
Proof.
  exact (CloseAllDBs_aftermath ToLower_ascii visit_sorted
           visit_sorted_visits_all engine_failing crowded_world).
Defined.

Lemma facade_without_default_connection_witness :
  Query ToLower_ascii "users" [W "id" (VInt 7) []] empty_world =
    (Panic NilDereference, empty_world)
  /\ Insert engine_ok "users" (VStruct [("name", VStr "bob")]) empty_world =
    (Panic NilDereference, empty_world).
Proof.
  destruct (facade_without_default_connection ToLower_ascii 0 engine_ok
              empty_world "users" (VStruct [("name", VStr "bob")]) []
              [W "id" (VInt 7) []]) as (HQ & HI & _);
    [left; reflexivity|].
  split; [exact HQ|exact HI].
Defined.

Lemma default_connection_variants_witness :
  Insert engine_ok "users" (VStruct [("name", VStr "bob")]) sample_world =
    InsertTx engine_ok (Some sample_db) "users"
      (VStruct [("name", VStr "bob")]) sample_world
  /\ Delete ToLower_ascii engine_ok "users" [W "id" (VInt 7) []] sample_world =
    DeleteTx ToLower_ascii engine_ok (Some sample_db) "users"
      [W "id" (VInt 7) []] sample_world.
Proof.
  destruct (default_connection_variants ToLower_ascii 0 engine_ok sample_world
              sample_db "users" (VStruct [("name", VStr "bob")]) []
              [W "id" (VInt 7) []]) as (HI & _ & _ & _ & HD & _);
    [reflexivity|].
  split; [exact HI|exact HD].
Defined.

Lemma mutation_not_reached_on_panic_witness :
  Update ToLower_ascii engine_ok "users" (VStruct [("name", VStr "bob")])
    [[[VInt 1; VInt 2]]] sample_world = (Panic TypeAssertion, sample_world)
  /\ DeleteTx ToLower_ascii engine_ok (Some sample_db) "users"
       [[[VInt 1; VInt 2]]] sample_world = (Panic TypeAssertion, sample_world).
Proof.
  destruct (mutation_not_reached_on_panic ToLower_ascii engine_ok sample_world
              sample_db "users" (VStruct [("name", VStr "bob")])
              [[[VInt 1; VInt 2]]] TypeAssertion) as (HU & _ & HD);
    [reflexivity|].
  split; [apply HU; reflexivity|exact HD].
Defined.

Lemma BeginTx_then_CommitTx_witness :
  (r ← BeginTx begin_failing "reports"; CommitTx engine_ok r.1 (Ref r.2))
    sample_world =
    (Ok (Some "database reports not found"), sample_world)
  /\ exists final,
       (r ← BeginTx begin_failing Mysql; CommitTx engine_failing r.1 (Ref r.2))
         sample_world =
         (Ok (Some final),
          mkWorld (GormDBs sample_world) [CallRollback sample_db])
       /\ contains final "too many connections".
Proof.
  destruct (BeginTx_then_CommitTx engine_ok begin_failing "reports"
              sample_world) as [Hmiss _].
  destruct (BeginTx_then_CommitTx engine_failing begin_failing Mysql
              sample_world) as [_ Hfail].
  split.
  - apply Hmiss. right. left. vm_compute. reflexivity.
  - apply (Hfail sample_db "too many connections");
      [discriminate|vm_compute; reflexivity|reflexivity].
Defined.
